(** * Excel data consolidator: column mapping and append

    A shallow embedding of [data_appender.append_data] and of the mapping
    logic of [mapping_review_dialog.MappingReviewDialog], with the pandas,
    fuzzywuzzy and Qt operations they call written out as list functions. *)

From Stdlib Require Import String Ascii List Bool Arith Lia Permutation Sorted.
Import ListNotations.
Open Scope string_scope.
Open Scope list_scope.

(** ** Python results *)

(** A call either returns a value or raises an exception, identified by
    the name of its class. *)
Inductive outcome (A : Type) : Type :=
| Returned (a : A)
| Raised (exception : string).
Arguments Returned {A} a.
Arguments Raised {A} exception.

Definition bind {A B : Type} (m : outcome A) (k : A -> outcome B) : outcome B :=
  match m with
  | Returned a => k a
  | Raised e => Raised e
  end.

Notation "x <- m ;; k" := (bind m (fun x => k))
  (at level 61, m at next level, right associativity).

(** ** Python dict with string keys

    Insertion ordered, one entry per key: assigning to an existing key
    replaces its value in place, a new key goes to the end. *)
Module Dict.

Definition t : Type := list (string * string).

Definition empty : t := [].

Fixpoint set (d : t) (k v : string) : t :=
  match d with
  | [] => [(k, v)]
  | (k', v') :: d' =>
      if String.eqb k' k then (k, v) :: d' else (k', v') :: set d' k v
  end.

Fixpoint get (d : t) (k : string) : option string :=
  match d with
  | [] => None
  | (k', v') :: d' => if String.eqb k' k then Some v' else get d' k
  end.

Definition keys (d : t) : list string := map fst d.

Definition items (d : t) : list (string * string) := d.

End Dict.

(** ** pandas DataFrame *)

(** A cell of a sheet: blank cells are read as NaN. *)
Inductive cell : Type :=
| NaN
| Str (s : string)
| Num (n : nat).

(** Column labels in order, and the rows in index order; every row has one
    cell per column label.  Labels may repeat. *)
Record DataFrame : Type := mkDataFrame {
  columns : list string;
  rows : list (list cell)
}.

Definition well_formed (df : DataFrame) : Prop :=
  Forall (fun r => length r = length (columns df)) (rows df).

(** [len(df)] *)
Definition len (df : DataFrame) : nat := length (rows df).

(** [label in df.columns] *)
Definition mem (label : string) (labels : list string) : bool :=
  existsb (String.eqb label) labels.

Fixpoint has_duplicates (labels : list string) : bool :=
  match labels with
  | [] => false
  | l :: ls => mem l ls || has_duplicates ls
  end.

(** [set(labels)] as its distinct elements, first occurrences kept. *)
Fixpoint distinct (labels : list string) : list string :=
  match labels with
  | [] => []
  | l :: ls => l :: filter (fun x => negb (String.eqb l x)) (distinct ls)
  end.

(** [df.rename(columns={old: new})]: every label equal to [old] becomes
    [new]; the data stays where it is. *)
Definition rename (df : DataFrame) (old new : string) : DataFrame :=
  mkDataFrame
    (map (fun c => if String.eqb c old then new else c) (columns df))
    (rows df).

(** The cells of a row that stand under label [l], left to right. *)
Fixpoint pick (labels : list string) (row : list cell) (l : string) : list cell :=
  match labels, row with
  | c :: cs, v :: vs =>
      if String.eqb c l then v :: pick cs vs l else pick cs vs l
  | _, _ => []
  end.

(** [series.fillna('')] on one cell. *)
Definition fillna (v : cell) : cell :=
  match v with
  | NaN => Str EmptyString
  | _ => v
  end.

Fixpoint fillna_row (labels : list string) (row : list cell) (col : string)
  : list cell :=
  match labels, row with
  | c :: cs, v :: vs =>
      (if String.eqb c col then fillna v else v) :: fillna_row cs vs col
  | _, _ => row
  end.

(** [df[col] = df[col].fillna('')] *)
Definition fillna_column (df : DataFrame) (col : string) : DataFrame :=
  mkDataFrame (columns df)
    (map (fun r => fillna_row (columns df) r col) (rows df)).

(** [df[labels]] for a list of labels that all occur in [df.columns]: for
    each label in turn, every column carrying it. *)
Definition select (df : DataFrame) (labels : list string) : DataFrame :=
  mkDataFrame
    (flat_map (fun l => filter (String.eqb l) (columns df)) labels)
    (map (fun r => flat_map (pick (columns df) r) labels) (rows df)).

(** The cell of a row under label [l]; NaN where the label is absent. *)
Definition cell_at (labels : list string) (row : list cell) (l : string) : cell :=
  hd NaN (pick labels row l).

(** A row re-laid-out on the labels [onto]. *)
Definition reindex (labels : list string) (row : list cell) (onto : list string)
  : list cell :=
  map (cell_at labels row) onto.

Definition list_eqb (a b : list string) : bool :=
  if list_eq_dec string_dec a b then true else false.

(** A frame of shape (0, 0). *)
Definition no_shape (df : DataFrame) : bool :=
  match columns df, rows df with
  | [], [] => true
  | _, _ => false
  end.

(** [pd.concat([a, b], ignore_index=True)]: rows of [a] then rows of [b]
    on the union of the labels, those of [a] first.  A frame of shape
    (0, 0) is left out when the other one is not; frames whose labels
    differ can only be aligned when neither repeats a label. *)
Definition concat (a b : DataFrame) : outcome DataFrame :=
  if no_shape b then Returned a
  else if no_shape a then Returned b
  else if list_eqb (columns a) (columns b) then
    Returned (mkDataFrame (columns a) (rows a ++ rows b))
  else if has_duplicates (columns a) || has_duplicates (columns b) then
    Raised "InvalidIndexError"
  else
    let union := columns a ++ filter (fun c => negb (mem c (columns a))) (columns b) in
    Returned (mkDataFrame union
                (map (fun r => reindex (columns a) r union) (rows a)
                 ++ map (fun r => reindex (columns b) r union) (rows b))).

(** ** data_appender.py *)

Record Statistics : Type := mkStatistics {
  source_columns : nat;
  target_columns : nat;
  mapped_columns : nat;
  appended_rows : nat
}.

Section Appender.

(** [list(s)] for a Python set [s] of strings: the order depends on the
    string hashes of the running process.  [list_of_set] stands for the
    order this process yields, given the distinct elements. *)
Variable list_of_set : list string -> list string.

(** The loop of step 2: one [rename] per mapping item whose source
    column is present at that point. *)
Definition apply_mappings (source_df : DataFrame) (manual_mappings : Dict.t)
  : DataFrame :=
  fold_left
    (fun mapped_source_df '(target_col, source_col) =>
       if mem source_col (columns mapped_source_df)
       then rename mapped_source_df source_col target_col
       else mapped_source_df)
    (Dict.items manual_mappings) source_df.

(** [set(a) & set(b)] as its distinct elements. *)
Definition intersection (a b : list string) : list string :=
  distinct (filter (fun c => mem c b) a).

Definition common_columns_of (mapped_source_df target_df : DataFrame)
  : list string :=
  list_of_set (intersection (columns mapped_source_df) (columns target_df)).

(** [append_data], on the two frames read from the files; returns the
    frame written back to the target file and the statistics. *)
Definition append_data (source_df target_df : DataFrame)
    (manual_mappings : Dict.t) : outcome (DataFrame * Statistics) :=
  let mapped_source_df := apply_mappings source_df manual_mappings in
  let common_columns := common_columns_of mapped_source_df target_df in
  let mapped_source_df := fold_left fillna_column common_columns mapped_source_df in
  appended_df <- concat target_df (select mapped_source_df common_columns) ;;
  Returned (appended_df,
            mkStatistics (length (columns source_df))
                         (length (columns target_df))
                         (length common_columns)
                         (len mapped_source_df)).

End Appender.

(** ** fuzzywuzzy.process *)

Section Fuzzy.

(** [fuzz.WRatio] on the processed strings, an integer from 0 to 100. *)
Variable scorer : string -> string -> nat.

Definition score_cutoff : nat := 0.

(** [process.extractWithoutOrder]: each choice with its score, in the
    order of the choices. *)
Definition extractWithoutOrder (query : string) (choices : list string)
  : list (string * nat) :=
  filter (fun m => Nat.leb score_cutoff (snd m))
         (map (fun choice => (choice, scorer query choice)) choices).

(** One step of a stable sort by decreasing score: [m] stood before
    every element of [l] and stays before those of equal score. *)
Fixpoint insert_by_score (m : string * nat) (l : list (string * nat))
  : list (string * nat) :=
  match l with
  | [] => [m]
  | x :: xs =>
      if Nat.ltb (snd m) (snd x) then x :: insert_by_score m xs else m :: x :: xs
  end.

Definition sort_by_score (l : list (string * nat)) : list (string * nat) :=
  fold_right insert_by_score [] l.

(** [heapq.nlargest(limit, l, key=lambda i: i[1])], which is
    [sorted(l, key=key, reverse=True)[:limit]]. *)
Definition nlargest (limit : nat) (l : list (string * nat))
  : list (string * nat) :=
  firstn limit (sort_by_score l).

(** [process.extract(query, choices, limit=limit)] *)
Definition extract (query : string) (choices : list string) (limit : nat)
  : list (string * nat) :=
  nlargest limit (extractWithoutOrder query choices).

End Fuzzy.

(** ** mapping_review_dialog.py *)

Record QComboBox : Type := mkQComboBox {
  combo_items : list string;
  currentIndex : nat
}.

(** [combo.currentText()] *)
Definition currentText (combo : QComboBox) : string :=
  nth (currentIndex combo) (combo_items combo) EmptyString.

(** A row of the tree: the texts of columns 0 and 1 and the widget set in
    column 2, if any. *)
Record QTreeWidgetItem : Type := mkQTreeWidgetItem {
  text0 : string;
  text1 : string;
  widget : option QComboBox
}.

Record MappingReviewDialog : Type := mkMappingReviewDialog {
  mapping_tree : list QTreeWidgetItem;
  manual_mappings : Dict.t
}.

(** The dialog as [__init__] leaves it before [load_mappings] runs. *)
Definition new_dialog : MappingReviewDialog :=
  mkMappingReviewDialog [] Dict.empty.

(** [xs[i] = f(xs[i])] for a row of the tree. *)
Fixpoint update_item (tree : list QTreeWidgetItem) (i : nat)
    (f : QTreeWidgetItem -> QTreeWidgetItem) : list QTreeWidgetItem :=
  match tree, i with
  | [], _ => []
  | it :: rest, O => f it :: rest
  | it :: rest, S j => it :: update_item rest j f
  end.

Section Dialog.

Variable scorer : string -> string -> nat.

(** The body of the loop of [load_mappings] for one target column. *)
Definition load_column (source_columns : list string)
    (self : MappingReviewDialog) (target_col : string)
  : MappingReviewDialog :=
  if mem target_col source_columns then
    mkMappingReviewDialog
      (mapping_tree self ++ [mkQTreeWidgetItem target_col target_col None])
      (Dict.set (manual_mappings self) target_col target_col)
  else
    let matches := extract scorer target_col source_columns 5 in
    let suggestions :=
      map fst (filter (fun match_ => Nat.leb 60 (snd match_)) matches) in
    let combo := mkQComboBox ("Select mapping..." :: suggestions) 0 in
    mkMappingReviewDialog
      (mapping_tree self
       ++ [mkQTreeWidgetItem target_col "Not Mapped" (Some combo)])
      (manual_mappings self).

(** [load_mappings], on the two headers read from the files. *)
Definition load_mappings (source_columns target_columns : list string)
    (self : MappingReviewDialog) : outcome MappingReviewDialog :=
  Returned (fold_left (load_column source_columns) target_columns self).

(** [MappingReviewDialog(source_file, target_file)] *)
Definition init (source_columns target_columns : list string)
  : outcome MappingReviewDialog :=
  load_mappings source_columns target_columns new_dialog.

End Dialog.

(** [on_mapping_selected(item, combo)]; [item] is the position of the row
    in the tree.  A reference to a row that the tree does not hold raises
    RuntimeError, as PyQt does for a deleted item. *)
Definition on_mapping_selected (self : MappingReviewDialog) (item : nat)
    (combo : QComboBox) : outcome MappingReviewDialog :=
  if Nat.ltb 0 (currentIndex combo) then
    match nth_error (mapping_tree self) item with
    | Some row =>
        let target_col := text0 row in
        let source_col := currentText combo in
        Returned
          (mkMappingReviewDialog
             (update_item (mapping_tree self) item
                (fun it => mkQTreeWidgetItem (text0 it) source_col (widget it)))
             (Dict.set (manual_mappings self) target_col source_col))
    | None => Raised "RuntimeError"
    end
  else Returned self.

(** The user picks entry [index] in the dropdown of row [item]: the combo
    takes the new index and, when it changed, [currentIndexChanged] calls
    the connected lambda, that is [on_mapping_selected(item, combo)]. *)
Definition choose (self : MappingReviewDialog) (item index : nat)
  : outcome MappingReviewDialog :=
  match nth_error (mapping_tree self) item with
  | Some row =>
      match widget row with
      | Some combo =>
          if Nat.ltb index (length (combo_items combo))
             && negb (Nat.eqb index (currentIndex combo))
          then
            let combo' := mkQComboBox (combo_items combo) index in
            on_mapping_selected
              (mkMappingReviewDialog
                 (update_item (mapping_tree self) item
                    (fun it => mkQTreeWidgetItem (text0 it) (text1 it) (Some combo')))
                 (manual_mappings self))
              item combo'
          else Returned self
      | None => Returned self
      end
  | None => Returned self
  end.

(** [get_manual_mappings] *)
Definition get_manual_mappings (self : MappingReviewDialog) : Dict.t :=
  manual_mappings self.

(** ** Data_Consolidator.py *)

(** The files as the calls of one click see them: what
    [pd.read_excel(path, nrows=nrows)] does for a path ([None] stands for
    the call without [nrows], which reads the whole sheet; the dialog
    reads with [nrows=0]), and what [df.to_excel] does for a path and a
    frame.  The reads of the header and of the whole sheet are two calls,
    and nothing ties their results together. *)
Record Files : Type := mkFiles {
  read_excel : string -> option nat -> outcome DataFrame;
  to_excel : string -> DataFrame -> outcome unit
}.

(** What a click leaves behind: a frame written to a file, or a message
    box. *)
Inductive Effect : Type :=
| Written (path : string) (df : DataFrame)
| Warning (title : string)
| Information (title : string) (stats : Statistics)
| Critical (exception : string).

(** [append_data(source_file, target_file, manual_mappings)] with its file
    accesses: both files are read, the frames are combined, the result is
    written to the target file. *)
Definition append_data_files (list_of_set : list string -> list string)
    (files : Files) (source_file target_file : string)
    (manual_mappings : Dict.t) : outcome (DataFrame * Statistics) :=
  source_df <- read_excel files source_file None ;;
  target_df <- read_excel files target_file None ;;
  result <- append_data list_of_set source_df target_df manual_mappings ;;
  _ <- to_excel files target_file (fst result) ;;
  Returned result.

(** [MappingReviewDialog(source_file, target_file)] with its file accesses:
    the headers of both files are read, with [nrows=0]. *)
Definition open_dialog (scorer : string -> string -> nat) (files : Files)
    (source_file target_file : string) : outcome MappingReviewDialog :=
  source_df <- read_excel files source_file (Some 0) ;;
  target_df <- read_excel files target_file (Some 0) ;;
  init scorer (columns source_df) (columns target_df).

(** The choices a user makes while the dialog is open, in order. *)
Fixpoint choose_all (self : MappingReviewDialog) (choices : list (nat * nat))
  : outcome MappingReviewDialog :=
  match choices with
  | [] => Returned self
  | (item, index) :: rest =>
      self' <- choose self item index ;;
      choose_all self' rest
  end.

(** [MainWindow.append_data]: the texts of the two input fields, the
    choices the user makes in the dialog, and whether the dialog is left
    with Proceed. *)
Definition click_append (scorer : string -> string -> nat)
    (list_of_set : list string -> list string) (files : Files)
    (source_file target_file : string)
    (choices : list (nat * nat)) (proceed : bool) : outcome (list Effect) :=
  if String.eqb source_file EmptyString || String.eqb target_file EmptyString
  then Returned [Warning "Missing Files"]
  else
    mapping_dialog <- open_dialog scorer files source_file target_file ;;
    mapping_dialog <- choose_all mapping_dialog choices ;;
    if proceed then
      let manual_mappings := get_manual_mappings mapping_dialog in
      match append_data_files list_of_set files source_file target_file
                              manual_mappings with
      | Returned (appended_df, stats) =>
          Returned [Written target_file appended_df;
                    Information "Operation Successful" stats]
      | Raised e => Returned [Critical e]
      end
    else Returned [].

(** ** The specification's reading of a row

    The dialog keeps no status field; the status of a target column is
    read off its row and the mapping dict. *)
Inductive Status : Type := Exact | Suggested | Unmapped | ManuallySet.

Record MappingEntry : Type := mkMappingEntry {
  target_column : string;
  status : Status;
  chosen_source_column : option string;
  candidates : list string
}.

Definition entry_of (self : MappingReviewDialog) (row : QTreeWidgetItem)
  : MappingEntry :=
  let chosen := Dict.get (manual_mappings self) (text0 row) in
  match widget row with
  | None => mkMappingEntry (text0 row) Exact chosen []
  | Some combo =>
      let suggestions := tl (combo_items combo) in
      mkMappingEntry (text0 row)
        (match chosen, suggestions with
         | Some _, _ => ManuallySet
         | None, [] => Unmapped
         | None, _ :: _ => Suggested
         end)
        chosen suggestions
  end.

(** ** Notions used to state the properties *)

(** A row after [fillna] ran on each of [labels] in turn. *)
Definition fillna_all (cols labels : list string) (r : list cell) : list cell :=
  fold_left (fillna_row cols) labels r.

(** A source row laid out on the target's labels: the cell of the renamed
    view under the same label with blanks replaced by the empty string,
    NaN where the renamed view has no such label. *)
Definition aligned_row (mapped_cols target_cols : list string) (r : list cell)
  : list cell :=
  map (fun c => if mem c mapped_cols then fillna (cell_at mapped_cols r c) else NaN)
      target_cols.

(** What every run guarantees about [list(s)]: the elements of [s], each
    once, in some order. *)
Definition set_order (list_of_set : list string -> list string) : Prop :=
  forall l, NoDup l -> Permutation l (list_of_set l).

(** A mapping as the dialog hands it over: a dict, whose target columns
    either carry the name of their source column or are no source column. *)
Definition finalized (source_header : list string) (m : Dict.t) : Prop :=
  NoDup (Dict.keys m)
  /\ forall t s, In (t, s) (Dict.items m) -> t = s \/ ~ In t source_header.

(** The row that [load_mappings] adds for a target column. *)
Definition row_for (scorer : string -> string -> nat)
    (source_columns : list string) (target_col : string) : QTreeWidgetItem :=
  if mem target_col source_columns then
    mkQTreeWidgetItem target_col target_col None
  else
    mkQTreeWidgetItem target_col "Not Mapped"
      (Some (mkQComboBox
               ("Select mapping..."
                :: map fst (filter (fun match_ => Nat.leb 60 (snd match_))
                                   (extract scorer target_col source_columns 5)))
               0)).

(** The dict after the loop of [load_mappings]: only exact matches are
    entered. *)
Definition exact_entries (source_columns : list string) (d : Dict.t)
    (target_columns : list string) : Dict.t :=
  fold_left
    (fun d t => if mem t source_columns then Dict.set d t t else d)
    target_columns d.

(** The ranking of section 4.1 of the specification: scores descending,
    candidates of equal score in the order of the input. *)
Definition descending (l : list (string * nat)) : Prop :=
  StronglySorted (fun x y => snd y <= snd x) l.

Definition stable_ranking (scored ranked : list (string * nat)) : Prop :=
  descending ranked
  /\ forall v, filter (fun x => Nat.eqb (snd x) v) ranked
              = filter (fun x => Nat.eqb (snd x) v) scored.

(** [top_k]: the first [k] candidates of that ranking. *)
Definition top_k (k : nat) (scored result : list (string * nat)) : Prop :=
  exists ranked, stable_ranking scored ranked /\ result = firstn k ranked.

(** The dialogs a user can bring about: the freshly loaded one, and any
    dialog after one more choice in a dropdown. *)
Inductive reachable (scorer : string -> string -> nat)
    (source_columns target_columns : list string)
  : MappingReviewDialog -> Prop :=
| reach_init self :
    init scorer source_columns target_columns = Returned self ->
    reachable scorer source_columns target_columns self
| reach_choose self item index self' :
    reachable scorer source_columns target_columns self ->
    choose self item index = Returned self' ->
    reachable scorer source_columns target_columns self'.

(** What holds of every dialog a user can bring about: a row with a
    dropdown stands for a target column that is no source column and
    offers source columns only; the dict maps to source columns only. *)
Definition offers_source_columns (source_columns : list string)
    (row : QTreeWidgetItem) : Prop :=
  forall combo, widget row = Some combo ->
    ~ In (text0 row) source_columns
    /\ forall s, In s (tl (combo_items combo)) -> In s source_columns.

Definition consistent (source_columns : list string)
    (self : MappingReviewDialog) : Prop :=
  Forall (offers_source_columns source_columns) (mapping_tree self)
  /\ (forall t s, In (t, s) (Dict.items (manual_mappings self)) ->
        In s source_columns /\ (t = s \/ ~ In t source_columns))
  /\ NoDup (Dict.keys (manual_mappings self)).

(** ** Sample data *)
Module Example.

Definition source_df : DataFrame :=
  mkDataFrame ["Name"; "Email"; "Phone"]
    [ [Str "Ann"; NaN; Num 1];
      [Str "Bob"; Str "bob@x.org"; NaN];
      [NaN; NaN; NaN] ].

Definition target_df : DataFrame :=
  mkDataFrame ["Name"; "Email"]
    [ [Str "Zoe"; Str "zoe@x.org"];
      [Str "Yan"; NaN] ].

(** A target sheet that shares no column with the source. *)
Definition ledger_df : DataFrame :=
  mkDataFrame ["Id"] [ [Num 7] ].

Definition mappings : Dict.t := [("Name", "Name"); ("Email", "Email")].

(** Two iteration orders a set of strings may show. *)
Definition as_built (l : list string) : list string := l.
Definition reversed (l : list string) : list string := rev l.

(** A target sheet with a column that the source lacks, mapped by hand
    onto the source's [Name]. *)
Definition roster_df : DataFrame :=
  mkDataFrame ["Name"; "Full Name"] [ [Str "Zoe"; Str "Zoe Z."] ].

Definition roster_mappings : Dict.t := [("Full Name", "Name")].

(** A target sheet with two columns that the user both maps onto the
    source's [Email]. *)
Definition contacts_df : DataFrame :=
  mkDataFrame ["E-mail"; "Contact"] [ [Str "zoe@x.org"; Str "zoe@x.org"] ].

Definition contacts_mappings : Dict.t :=
  [("E-mail", "Email"); ("Contact", "Email")].

(** A stand-in for the scorer: 100 for equal names, 80 for names with
    the same first character, 0 otherwise. *)
Definition initial_score (a b : string) : nat :=
  if String.eqb a b then 100
  else match a, b with
       | String x _, String y _ => if Ascii.eqb x y then 80 else 0
       | _, _ => 0
       end.

(** The first [nrows] rows of a sheet, or all of them. *)
Definition first_rows (nrows : option nat) (df : DataFrame) : DataFrame :=
  match nrows with
  | Some n => mkDataFrame (columns df) (firstn n (rows df))
  | None => df
  end.

(** Files that hold the sample sheets and can be written. *)
Definition files : Files :=
  mkFiles
    (fun path nrows =>
       if String.eqb path "source.xlsx"
       then Returned (first_rows nrows source_df)
       else if String.eqb path "target.xlsx"
       then Returned (first_rows nrows target_df)
       else Raised "FileNotFoundError")
    (fun _ _ => Returned tt).

(** A dialog in which the user has chosen [Email] for [E-mail]. *)
Definition mapped_dialog : MappingReviewDialog :=
  mkMappingReviewDialog
    [ mkQTreeWidgetItem "Name" "Name" None;
      mkQTreeWidgetItem "E-mail" "Email"
        (Some (mkQComboBox ["Select mapping..."; "Email"] 1)) ]
    [("Name", "Name"); ("E-mail", "Email")].

(** A mapping in which the exact match of [Email] is overridden by
    [Name]. *)
Definition override_mappings : Dict.t := [("Name", "Name"); ("Email", "Name")].

End Example.

(** * Properties *)

(** ** Labels *)

Lemma mem_In (x : string) (l : list string) : mem x l = true <-> In x l.
Proof.
  unfold mem. rewrite existsb_exists. split.
  - intros [y [Hy E]]. apply String.eqb_eq in E. now subst.
  - intros H. exists x. split; [assumption | apply String.eqb_refl].
Qed.

Lemma mem_not_In (x : string) (l : list string) : mem x l = false <-> ~ In x l.
Proof.
  rewrite <- mem_In. destruct (mem x l); split; congruence.
Qed.

Lemma mem_cons (x a : string) (l : list string) :
  mem x (a :: l) = String.eqb x a || mem x l.
Proof. reflexivity. Qed.

Lemma has_duplicates_NoDup (l : list string) :
  has_duplicates l = false <-> NoDup l.
Proof.
  induction l as [| a l IH]; simpl.
  - split; [constructor | reflexivity].
  - rewrite orb_false_iff, mem_not_In, IH. split.
    + intros [H1 H2]. now constructor.
    + intros H. inversion H; subst. now split.
Qed.

Lemma distinct_In (x : string) (l : list string) :
  In x (distinct l) <-> In x l.
Proof.
  induction l as [| a l IH]; simpl; [tauto |].
  rewrite filter_In, IH, negb_true_iff, String.eqb_neq.
  destruct (string_dec a x); tauto.
Qed.

Lemma distinct_NoDup (l : list string) : NoDup (distinct l).
Proof.
  induction l as [| a l IH]; simpl; constructor.
  - rewrite filter_In, negb_true_iff, String.eqb_neq. tauto.
  - now apply NoDup_filter.
Qed.

Lemma intersection_In (x : string) (a b : list string) :
  In x (intersection a b) <-> In x a /\ In x b.
Proof.
  unfold intersection. now rewrite distinct_In, filter_In, mem_In.
Qed.

Lemma intersection_NoDup (a b : list string) : NoDup (intersection a b).
Proof. apply distinct_NoDup. Qed.

(** ** Rows under labels *)

Lemma pick_app (l1 l2 : list string) (r1 r2 : list cell) (c : string) :
  length l1 = length r1 ->
  pick (l1 ++ l2) (r1 ++ r2) c = pick l1 r1 c ++ pick l2 r2 c.
Proof.
  revert r1. induction l1 as [| x l1 IH]; intros [| v r1] H;
    simpl in *; try discriminate; [reflexivity |].
  injection H as H. rewrite (IH _ H). now destruct (String.eqb x c).
Qed.

Lemma pick_length (cols : list string) (r : list cell) (l : string) :
  length cols = length r ->
  length (pick cols r l) = length (filter (String.eqb l) cols).
Proof.
  revert r. induction cols as [| x cols IH]; intros [| v r] H;
    simpl in *; try discriminate; [reflexivity |].
  injection H as H. rewrite (String.eqb_sym l x).
  destruct (String.eqb x l); simpl; now rewrite (IH _ H).
Qed.

Lemma pick_all_same (ls : list string) (vs : list cell) (l c : string) :
  (forall x, In x ls -> x = l) -> length ls = length vs ->
  pick ls vs c = if String.eqb l c then vs else [].
Proof.
  revert vs. induction ls as [| x ls IH]; intros [| v vs] Hall H;
    simpl in *; try discriminate.
  - now destruct (String.eqb l c).
  - injection H as H.
    rewrite (Hall x (or_introl eq_refl)).
    rewrite (IH vs (fun y Hy => Hall y (or_intror Hy)) H).
    now destruct (String.eqb l c).
Qed.

Lemma pick_nonempty (cols : list string) (r : list cell) (l : string) :
  length cols = length r -> In l cols -> pick cols r l <> [].
Proof.
  revert r. induction cols as [| x cols IH]; intros [| v r] H Hin;
    simpl in *; try discriminate; [contradiction |].
  injection H as H.
  destruct (String.eqb x l) eqn:E; [discriminate |].
  apply String.eqb_neq in E. destruct Hin as [-> | Hin]; [congruence |].
  now apply IH.
Qed.

Lemma pick_absent (cols : list string) (r : list cell) (l : string) :
  ~ In l cols -> pick cols r l = [].
Proof.
  revert r. induction cols as [| x cols IH]; intros [| v r] Hin;
    simpl in *; try reflexivity.
  destruct (String.eqb x l) eqn:E.
  - apply String.eqb_eq in E. tauto.
  - apply IH. tauto.
Qed.

Lemma select_pick (cols labels : list string) (r : list cell) (c : string) :
  NoDup labels -> length cols = length r ->
  pick (flat_map (fun l => filter (String.eqb l) cols) labels)
       (flat_map (pick cols r) labels) c
  = if mem c labels then pick cols r c else [].
Proof.
  intros Hnd Hlen. induction Hnd as [| a ls Hnotin Hnd IH]; [reflexivity |].
  simpl flat_map. rewrite pick_app.
  2:{ symmetry. now apply pick_length. }
  rewrite IH, mem_cons.
  rewrite (pick_all_same _ _ a c).
  - rewrite (String.eqb_sym c a). destruct (String.eqb a c) eqn:E; simpl.
    + apply String.eqb_eq in E. subst c.
      apply mem_not_In in Hnotin. rewrite Hnotin. apply app_nil_r.
    + reflexivity.
  - intros x Hx. apply filter_In in Hx. destruct Hx as [_ Hx].
    apply String.eqb_eq in Hx. now subst.
  - symmetry. now apply pick_length.
Qed.

Lemma fillna_idempotent (v : cell) : fillna (fillna v) = fillna v.
Proof. now destruct v. Qed.

Lemma fillna_row_length (cols : list string) (r : list cell) (col : string) :
  length (fillna_row cols r col) = length r.
Proof.
  revert r. induction cols as [| x cols IH]; intros [| v r]; simpl; auto.
Qed.

Lemma pick_fillna_row (cols : list string) (r : list cell) (col c : string) :
  pick cols (fillna_row cols r col) c
  = if String.eqb c col then map fillna (pick cols r c) else pick cols r c.
Proof.
  revert r. induction cols as [| x cols IH]; intros [| v r]; simpl;
    try now destruct (String.eqb c col).
  rewrite IH.
  destruct (String.eqb x c) eqn:E1; destruct (String.eqb c col) eqn:E2;
    destruct (String.eqb x col) eqn:E3; simpl; try reflexivity.
  - apply String.eqb_eq in E1, E2. apply String.eqb_neq in E3. congruence.
  - apply String.eqb_eq in E1, E3. apply String.eqb_neq in E2. congruence.
Qed.

Lemma fillna_all_length (cols labels : list string) (r : list cell) :
  length (fillna_all cols labels r) = length r.
Proof.
  unfold fillna_all. revert r.
  induction labels as [| a ls IH]; intros r; simpl; [reflexivity |].
  now rewrite IH, fillna_row_length.
Qed.

Lemma pick_fillna_all (cols labels : list string) (r : list cell) (c : string) :
  pick cols (fillna_all cols labels r) c
  = if mem c labels then map fillna (pick cols r c) else pick cols r c.
Proof.
  unfold fillna_all. revert r.
  induction labels as [| a ls IH]; intros r; simpl fold_left; [reflexivity |].
  rewrite IH, pick_fillna_row, mem_cons.
  destruct (String.eqb c a), (mem c ls); simpl; try reflexivity.
  rewrite map_map. apply map_ext. intros v. apply fillna_idempotent.
Qed.

Lemma fold_fillna_column (labels : list string) (df : DataFrame) :
  fold_left fillna_column labels df
  = mkDataFrame (columns df)
      (map (fillna_all (columns df) labels) (rows df)).
Proof.
  revert df. induction labels as [| a ls IH]; intros df; simpl.
  - unfold fillna_all. simpl. rewrite map_id. now destruct df.
  - rewrite IH. simpl. now rewrite map_map.
Qed.

Lemma reindex_self (cols : list string) (r : list cell) :
  NoDup cols -> length cols = length r -> reindex cols r cols = r.
Proof.
  unfold reindex. intros Hnd. revert r.
  induction Hnd as [| a cs Hnotin Hnd IH]; intros [| v vs] H;
    simpl in *; try discriminate; [reflexivity |].
  injection H as H. unfold cell_at at 1. simpl. rewrite String.eqb_refl. simpl.
  f_equal. rewrite <- (IH vs H) at 2.
  apply map_ext_in. intros c Hc. unfold cell_at. simpl.
  destruct (String.eqb a c) eqn:E; [| reflexivity].
  apply String.eqb_eq in E. subst. contradiction.
Qed.

(** ** concat *)

Lemma filter_none_new (ca cb : list string) :
  incl cb ca -> filter (fun c => negb (mem c ca)) cb = [].
Proof.
  intros H. induction cb as [| x cb IH]; simpl; [reflexivity |].
  assert (Hx : mem x ca = true) by (apply mem_In, H; now left).
  rewrite Hx. simpl. apply IH. intros y Hy. apply H. now right.
Qed.

Lemma map_reindex_self (cols : list string) (rs : list (list cell)) :
  NoDup cols -> Forall (fun r => length r = length cols) rs ->
  map (fun r => reindex cols r cols) rs = rs.
Proof.
  intros Hnd H. induction H as [| r rs Hr _ IH]; simpl; [reflexivity |].
  rewrite IH. f_equal. now apply reindex_self.
Qed.

Lemma concat_aligned (a b : DataFrame) :
  NoDup (columns a) -> well_formed a -> well_formed b ->
  incl (columns b) (columns a) ->
  concat a b
  = if has_duplicates (columns b) then Raised "InvalidIndexError"
    else Returned (mkDataFrame (columns a)
                     (rows a
                      ++ map (fun r => reindex (columns b) r (columns a)) (rows b))).
Proof.
  destruct a as [ca ra], b as [cb rb]. unfold well_formed, concat. simpl.
  intros Hnd Hwa Hwb Hincl.
  assert (Hda : has_duplicates ca = false) by now apply has_duplicates_NoDup.
  unfold no_shape; simpl.
  destruct cb as [| y cb].
  - (* the second frame has no columns *)
    simpl.
    assert (Hrb : map (fun r => reindex [] r ca) rb
                  = map (fun _ => repeat NaN (length ca)) rb).
    { apply map_ext. intros r. unfold reindex, cell_at.
      clear. induction ca; simpl; [reflexivity |].
      destruct r; simpl; now f_equal. }
    destruct rb as [| r rb]; [now rewrite app_nil_r |].
    destruct ca as [| x ca].
    + pose proof (map_reindex_self [] (r :: rb) Hnd Hwb) as Hnil.
      destruct ra as [| r' ra].
      * rewrite Hnil. reflexivity.
      * unfold list_eqb. destruct (list_eq_dec string_dec [] []); [| congruence].
        rewrite Hnil. reflexivity.
    + unfold list_eqb.
      destruct (list_eq_dec string_dec (x :: ca) []); [discriminate |].
      rewrite Hda. simpl orb. cbv iota. simpl filter. rewrite app_nil_r.
      rewrite (map_reindex_self (x :: ca) ra Hnd Hwa). reflexivity.
  - destruct ca as [| x ca].
    { exfalso. apply (Hincl y). now left. }
    unfold list_eqb.
    destruct (list_eq_dec string_dec (x :: ca) (y :: cb)) as [E | NE].
    + rewrite <- E, Hda.
      rewrite <- E in Hwb.
      now rewrite (map_reindex_self (x :: ca) rb Hnd Hwb).
    + rewrite Hda, orb_false_l.
      destruct (has_duplicates (y :: cb)); [reflexivity |].
      cbv zeta. rewrite (filter_none_new _ _ Hincl), app_nil_r.
      now rewrite (map_reindex_self (x :: ca) ra Hnd Hwa).
Qed.

(** ** The renamed view *)

Lemma apply_mappings_cons (df : DataFrame) (t s : string) (m : Dict.t) :
  apply_mappings df ((t, s) :: m)
  = apply_mappings (if mem s (columns df) then rename df s t else df) m.
Proof. reflexivity. Qed.


Lemma apply_mappings_rows (df : DataFrame) (m : Dict.t) :
  rows (apply_mappings df m) = rows df.
Proof.
  revert df. induction m as [| [t s] m IH]; intros df; [reflexivity |].
  rewrite apply_mappings_cons, IH. now destruct (mem s (columns df)).
Qed.

Lemma apply_mappings_width (df : DataFrame) (m : Dict.t) :
  length (columns (apply_mappings df m)) = length (columns df).
Proof.
  revert df. induction m as [| [t s] m IH]; intros df; [reflexivity |].
  rewrite apply_mappings_cons, IH.
  destruct (mem s (columns df)); [| reflexivity].
  simpl. apply length_map.
Qed.

Lemma apply_mappings_well_formed (df : DataFrame) (m : Dict.t) :
  well_formed df -> well_formed (apply_mappings df m).
Proof.
  unfold well_formed. now rewrite apply_mappings_rows, apply_mappings_width.
Qed.

(** ** append_data in closed form *)

Lemma select_columns_incl (df : DataFrame) (labels : list string) :
  incl (columns (select df labels)) labels.
Proof.
  intros c Hc. simpl in Hc. apply in_flat_map in Hc.
  destruct Hc as [l [Hl Hc]]. apply filter_In in Hc.
  destruct Hc as [_ E]. apply String.eqb_eq in E. now subst.
Qed.

Lemma select_well_formed (df : DataFrame) (labels : list string) :
  well_formed df -> well_formed (select df labels).
Proof.
  unfold well_formed. simpl. intros H. apply Forall_map.
  eapply Forall_impl; [| exact H]. intros r Hr. simpl.
  induction labels as [| a ls IH]; simpl; [reflexivity |].
  rewrite !length_app, IH. f_equal. now apply pick_length.
Qed.

Lemma common_columns_In (list_of_set : list string -> list string)
    (mapped tgt : DataFrame) (c : string) :
  set_order list_of_set ->
  In c (common_columns_of list_of_set mapped tgt)
  <-> In c (columns mapped) /\ In c (columns tgt).
Proof.
  intros Hord. unfold common_columns_of.
  rewrite <- intersection_In.
  pose proof (Hord _ (intersection_NoDup (columns mapped) (columns tgt))) as P.
  split; intros H.
  - eapply Permutation_in; [apply Permutation_sym; exact P | exact H].
  - eapply Permutation_in; [exact P | exact H].
Qed.

Lemma common_columns_NoDup (list_of_set : list string -> list string)
    (mapped tgt : DataFrame) :
  set_order list_of_set ->
  NoDup (common_columns_of list_of_set mapped tgt).
Proof.
  intros Hord. unfold common_columns_of.
  eapply Permutation_NoDup; [apply Hord |]; apply intersection_NoDup.
Qed.

Lemma reindex_selected (cols labels target_cols : list string) (r : list cell) :
  NoDup labels -> length cols = length r ->
  (forall c, In c target_cols -> (In c labels <-> In c cols)) ->
  reindex (flat_map (fun l => filter (String.eqb l) cols) labels)
          (flat_map (pick cols (fillna_all cols labels r)) labels)
          target_cols
  = aligned_row cols target_cols r.
Proof.
  intros Hnd Hlen Hiff. unfold reindex, aligned_row.
  apply map_ext_in. intros c Hc. unfold cell_at.
  rewrite select_pick; [| assumption | now rewrite fillna_all_length].
  rewrite pick_fillna_all.
  destruct (mem c labels) eqn:E.
  - apply mem_In in E. pose proof (proj1 (Hiff c Hc) E) as Hin.
    rewrite (proj2 (mem_In c cols) Hin).
    pose proof (pick_nonempty cols r c Hlen Hin) as Hne.
    destruct (pick cols r c); [congruence | reflexivity].
  - apply mem_not_In in E.
    assert (Hn : ~ In c cols) by (intros H; apply E, (Hiff c Hc), H).
    now rewrite (proj2 (mem_not_In c cols) Hn).
Qed.

Lemma append_data_aligned (list_of_set : list string -> list string)
    (source_df target_df : DataFrame) (manual_mappings : Dict.t) :
  set_order list_of_set ->
  well_formed source_df -> well_formed target_df ->
  NoDup (columns target_df) ->
  let mapped := apply_mappings source_df manual_mappings in
  let common := common_columns_of list_of_set mapped target_df in
  append_data list_of_set source_df target_df manual_mappings
  = if has_duplicates (columns (select mapped common))
    then Raised "InvalidIndexError"
    else Returned
           (mkDataFrame (columns target_df)
              (rows target_df
               ++ map (aligned_row (columns mapped) (columns target_df))
                      (rows source_df)),
            mkStatistics (length (columns source_df))
                         (length (columns target_df))
                         (length common)
                         (len source_df)).
Proof.
  intros Hord Hws Hwt Hnd mapped common. unfold append_data.
  fold mapped. fold common.
  rewrite fold_fillna_column.
  set (filled := mkDataFrame (columns mapped)
                   (map (fillna_all (columns mapped) common) (rows mapped))).
  assert (Hwm : well_formed mapped) by now apply apply_mappings_well_formed.
  assert (Hwf : well_formed filled).
  { unfold well_formed, filled. simpl. apply Forall_map.
    eapply Forall_impl; [| exact Hwm]. intros r Hr. simpl.
    now rewrite fillna_all_length. }
  assert (Hincl : incl (columns (select filled common)) (columns target_df)).
  { intros c Hc. apply select_columns_incl in Hc.
    now apply (common_columns_In list_of_set mapped target_df c Hord) in Hc. }
  rewrite (concat_aligned target_df (select filled common) Hnd Hwt
             (select_well_formed _ _ Hwf) Hincl).
  change (columns (select filled common)) with (columns (select mapped common)).
  destruct (has_duplicates (columns (select mapped common))); [reflexivity |].
  simpl bind. f_equal. f_equal.
  - f_equal. f_equal. simpl. rewrite !map_map.
    assert (Hsame : rows mapped = rows source_df)
      by apply apply_mappings_rows.
    rewrite Hsame.
    assert (Hrows : Forall (fun r => length (columns mapped) = length r)
                           (rows source_df)).
    { unfold well_formed in Hwm. rewrite Hsame in Hwm.
      eapply Forall_impl; [| exact Hwm]. intros r Hr. now symmetry. }
    apply map_ext_in. intros r Hr.
    rewrite Forall_forall in Hrows.
    apply reindex_selected.
    + now apply common_columns_NoDup.
    + now apply Hrows.
    + intros c Hc. unfold common.
      rewrite (common_columns_In list_of_set mapped target_df c Hord). tauto.
  - f_equal. unfold len, filled. simpl. rewrite length_map.
    f_equal. apply apply_mappings_rows.
Qed.

(** ** Unique labels *)

Lemma In_renamed (l : list string) (s t y : string) :
  In y (map (fun c => if String.eqb c s then t else c) l) -> y = t \/ In y l.
Proof.
  rewrite in_map_iff. intros [x [E Hx]].
  destruct (String.eqb x s); subst; auto.
Qed.

Lemma rename_same (l : list string) (s : string) :
  map (fun c => if String.eqb c s then s else c) l = l.
Proof.
  rewrite <- (map_id l) at 2. apply map_ext. intros c.
  destruct (String.eqb c s) eqn:E; [| reflexivity].
  apply String.eqb_eq in E. now subst.
Qed.

Lemma rename_absent (l : list string) (s t : string) :
  ~ In s l -> map (fun c => if String.eqb c s then t else c) l = l.
Proof.
  intros H. rewrite <- (map_id l) at 2. apply map_ext_in. intros c Hc.
  destruct (String.eqb c s) eqn:E; [| reflexivity].
  apply String.eqb_eq in E. subst. contradiction.
Qed.

Lemma rename_NoDup (l : list string) (s t : string) :
  NoDup l -> ~ In t l ->
  NoDup (map (fun c => if String.eqb c s then t else c) l).
Proof.
  intros Hnd. induction Hnd as [| x l Hx Hnd IH]; intros Ht; simpl;
    [constructor |].
  destruct (String.eqb x s) eqn:E.
  - apply String.eqb_eq in E. subst x.
    rewrite (rename_absent l s t Hx). constructor; [| assumption].
    intros H. apply Ht. now right.
  - constructor.
    + intros H. apply In_renamed in H. destruct H as [-> | H].
      * apply Ht. now left.
      * contradiction.
    + apply IH. intros H. apply Ht. now right.
Qed.

Lemma apply_mappings_NoDup (df : DataFrame) (m : Dict.t) :
  NoDup (columns df) -> NoDup (Dict.keys m) ->
  (forall t s, In (t, s) m -> t = s \/ ~ In t (columns df)) ->
  NoDup (columns (apply_mappings df m)).
Proof.
  revert df. induction m as [| [t s] m IH]; intros df Hnd Hkeys Hfin;
    [assumption |].
  rewrite apply_mappings_cons. simpl in Hkeys.
  apply NoDup_cons_iff in Hkeys. destruct Hkeys as [Ht Hkeys].
  destruct (mem s (columns df)) eqn:Hs.
  - destruct (Hfin t s (or_introl eq_refl)) as [-> | Hfresh].
    + apply IH; try assumption.
      * simpl. now rewrite rename_same.
      * simpl. rewrite rename_same. intros t' s' H. apply Hfin. now right.
    + apply IH; try assumption.
      * simpl. now apply rename_NoDup.
      * intros t' s' H. destruct (Hfin t' s' (or_intror H)) as [E | Hn];
          [now left | right].
        simpl. intros Hin. apply In_renamed in Hin. destruct Hin as [-> | Hin].
        -- apply Ht. unfold Dict.keys. apply in_map_iff.
           exists (t, s'). split; [reflexivity | assumption].
        -- contradiction.
  - apply IH; try assumption. intros t' s' H. apply Hfin. now right.
Qed.

Lemma select_columns_NoDup (df : DataFrame) (labels : list string) :
  NoDup (columns df) -> NoDup labels -> NoDup (columns (select df labels)).
Proof.
  intros Hc Hl. simpl. induction Hl as [| a ls Ha Hl IH]; simpl; [constructor |].
  apply NoDup_app.
  - now apply NoDup_filter.
  - exact IH.
  - intros x Hx Hx'. apply filter_In in Hx. destruct Hx as [_ E].
    apply String.eqb_eq in E. subst x.
    apply in_flat_map in Hx'. destruct Hx' as [l [Hl' Hx']].
    apply filter_In in Hx'. destruct Hx' as [_ E].
    apply String.eqb_eq in E. subst l. contradiction.
Qed.

Lemma finalized_no_duplicates (list_of_set : list string -> list string)
    (source_df target_df : DataFrame) (m : Dict.t) :
  set_order list_of_set ->
  NoDup (columns source_df) -> finalized (columns source_df) m ->
  let mapped := apply_mappings source_df m in
  has_duplicates
    (columns (select mapped (common_columns_of list_of_set mapped target_df)))
  = false.
Proof.
  intros Hord Hnd [Hkeys Hfin] mapped. apply has_duplicates_NoDup.
  apply select_columns_NoDup.
  - now apply apply_mappings_NoDup.
  - now apply common_columns_NoDup.
Qed.

(** ** Sample orders are set orders *)

Lemma as_built_set_order : set_order Example.as_built.
Proof. intros l _. apply Permutation_refl. Qed.

Lemma reversed_set_order : set_order Example.reversed.
Proof. intros l _. apply Permutation_rev. Qed.

Lemma mappings_finalized :
  finalized (columns Example.source_df) Example.mappings.
Proof.
  split.
  - apply has_duplicates_NoDup. reflexivity.
  - intros t s [H | [H | []]]; injection H as <- <-; now left.
Qed.

(** ** Statistics *)

(** C9: the statistics of a call that returns are the width of the source
    header before renaming, the width of the target header, the number of
    common columns (the distinct labels found in both the renamed source
    header and the target header) and the number of source rows. *)
Theorem statistics_counts (list_of_set : list string -> list string)
    (source_df target_df merged : DataFrame) (m : Dict.t) (stats : Statistics) :
  set_order list_of_set ->
  append_data list_of_set source_df target_df m = Returned (merged, stats) ->
  source_columns stats = length (columns source_df)
  /\ target_columns stats = length (columns target_df)
  /\ mapped_columns stats
     = length (common_columns_of list_of_set
                 (apply_mappings source_df m) target_df)
  /\ mapped_columns stats
     = length (intersection (columns (apply_mappings source_df m))
                            (columns target_df))
  /\ appended_rows stats = len source_df.
Proof.
  intros Hord Hrun. unfold append_data in Hrun.
  destruct (concat _ _) as [appended_df | e]; simpl in Hrun; [| discriminate].
  injection Hrun as _ <-. simpl. repeat split.
  - unfold common_columns_of. symmetry. apply Permutation_length.
    apply Hord, intersection_NoDup.
  - rewrite fold_fillna_column. unfold len. simpl.
    now rewrite length_map, apply_mappings_rows.
Qed.

Lemma statistics_counts_witness :
  source_columns (mkStatistics 3 2 2 3) = length (columns Example.source_df)
  /\ target_columns (mkStatistics 3 2 2 3) = length (columns Example.target_df)
  /\ mapped_columns (mkStatistics 3 2 2 3)
     = length (common_columns_of Example.as_built
                 (apply_mappings Example.source_df Example.mappings)
                 Example.target_df)
  /\ mapped_columns (mkStatistics 3 2 2 3)
     = length (intersection
                 (columns (apply_mappings Example.source_df Example.mappings))
                 (columns Example.target_df))
  /\ appended_rows (mkStatistics 3 2 2 3) = len Example.source_df.
Proof.
  eapply (statistics_counts Example.as_built Example.source_df
            Example.target_df _ Example.mappings).
  - exact as_built_set_order.
  - vm_compute. reflexivity.
Defined.

(** ** Independence of the set order *)

Lemma has_duplicates_Permutation (l l' : list string) :
  Permutation l l' -> has_duplicates l = has_duplicates l'.
Proof.
  intros P.
  destruct (has_duplicates l) eqn:E, (has_duplicates l') eqn:E';
    try reflexivity.
  - apply has_duplicates_NoDup in E'.
    apply (Permutation_NoDup (Permutation_sym P)) in E'.
    apply has_duplicates_NoDup in E'. congruence.
  - apply has_duplicates_NoDup in E.
    apply (Permutation_NoDup P) in E.
    apply has_duplicates_NoDup in E. congruence.
Qed.

Lemma common_columns_Permutation (order1 order2 : list string -> list string)
    (mapped tgt : DataFrame) :
  set_order order1 -> set_order order2 ->
  Permutation (common_columns_of order1 mapped tgt)
              (common_columns_of order2 mapped tgt).
Proof.
  intros H1 H2. unfold common_columns_of.
  eapply Permutation_trans.
  - apply Permutation_sym, H1, intersection_NoDup.
  - apply H2, intersection_NoDup.
Qed.

(** C5, as far as it holds: the order in which a run lists the common
    columns does not reach the output.  On well-formed frames with a
    unique target header, two runs that list the set in different orders
    return the same merged frame and the same statistics, or raise the
    same exception. *)
Theorem merge_independent_of_set_order
    (order1 order2 : list string -> list string)
    (source_df target_df : DataFrame) (m : Dict.t) :
  set_order order1 -> set_order order2 ->
  well_formed source_df -> well_formed target_df ->
  NoDup (columns target_df) ->
  append_data order1 source_df target_df m
  = append_data order2 source_df target_df m.
Proof.
  intros H1 H2 Hws Hwt Hnt.
  rewrite (append_data_aligned order1 source_df target_df m H1 Hws Hwt Hnt).
  rewrite (append_data_aligned order2 source_df target_df m H2 Hws Hwt Hnt).
  cbv zeta.
  pose proof (common_columns_Permutation order1 order2
                (apply_mappings source_df m) target_df H1 H2) as P.
  rewrite (Permutation_length P).
  erewrite (has_duplicates_Permutation
              (columns (select _ (common_columns_of order1 _ _)))).
  - reflexivity.
  - simpl. now apply Permutation_flat_map.
Qed.

Lemma merge_independent_of_set_order_witness :
  append_data Example.as_built Example.source_df Example.target_df
              Example.mappings
  = append_data Example.reversed Example.source_df Example.target_df
                Example.mappings.
Proof.
  apply (merge_independent_of_set_order Example.as_built Example.reversed).
  - exact as_built_set_order.
  - exact reversed_set_order.
  - repeat constructor.
  - repeat constructor.
  - apply has_duplicates_NoDup. reflexivity.
Defined.

(** C5, as stated, fails: two runs may list the common columns in
    different orders. *)
Lemma common_columns_order_differs :
  set_order Example.as_built /\ set_order Example.reversed
  /\ common_columns_of Example.as_built
       (apply_mappings Example.source_df Example.mappings) Example.target_df
     = ["Name"; "Email"]
  /\ common_columns_of Example.reversed
       (apply_mappings Example.source_df Example.mappings) Example.target_df
     = ["Email"; "Name"]
  /\ common_columns_of Example.as_built
       (apply_mappings Example.source_df Example.mappings) Example.target_df
     <> common_columns_of Example.reversed
          (apply_mappings Example.source_df Example.mappings) Example.target_df.
Proof.
  split; [exact as_built_set_order |].
  split; [exact reversed_set_order |].
  split; [reflexivity |]. split; [reflexivity |].
  vm_compute. discriminate.
Qed.

(** ** Columns that keep their name *)

Lemma Forall2_map_r (R : string -> string -> Prop) (f : string -> string)
    (l : list string) :
  (forall x, R x (f x)) -> Forall2 R l (map f l).
Proof. intros H. induction l; simpl; constructor; auto. Qed.

Lemma Forall2_kept_trans (N : string) (l1 l2 l3 : list string) :
  Forall2 (fun a b => a = N -> b = N) l1 l2 ->
  Forall2 (fun a b => a = N -> b = N) l2 l3 ->
  Forall2 (fun a b => a = N -> b = N) l1 l3.
Proof.
  intros H. revert l3. induction H as [| a b l1 l2 Hab _ IH]; intros l3 H';
    inversion H'; subst; constructor; auto.
Qed.

Lemma Forall2_kept_refl (N : string) (l : list string) :
  Forall2 (fun a b => a = N -> b = N) l l.
Proof. induction l; constructor; auto. Qed.

Lemma apply_mappings_keeps (N : string) (df : DataFrame) (m : Dict.t) :
  (forall t s, In (t, s) m -> s = N -> t = N) ->
  Forall2 (fun a b => a = N -> b = N)
          (columns df) (columns (apply_mappings df m)).
Proof.
  revert df. induction m as [| [t s] m IH]; intros df H.
  - apply Forall2_kept_refl.
  - rewrite apply_mappings_cons.
    assert (Hm : forall t' s', In (t', s') m -> s' = N -> t' = N)
      by (intros t' s' Hin; apply H; now right).
    destruct (mem s (columns df)).
    + eapply Forall2_kept_trans; [| apply IH, Hm].
      simpl. apply Forall2_map_r. intros x Hx.
      destruct (String.eqb x s) eqn:E; [| assumption].
      apply String.eqb_eq in E. apply (H t s); [now left | congruence].
    + apply IH, Hm.
Qed.

Lemma Forall2_kept_In (N : string) (l1 l2 : list string) :
  Forall2 (fun a b => a = N -> b = N) l1 l2 -> In N l1 -> In N l2.
Proof.
  intros H. induction H as [| a b l1 l2 Hab _ IH]; simpl; [tauto |].
  intros [E | Hin]; [left; auto | right; auto].
Qed.

Lemma cell_at_kept (N : string) (cols0 cols1 : list string) (r : list cell) :
  Forall2 (fun a b => a = N -> b = N) cols0 cols1 ->
  NoDup (filter (String.eqb N) cols1) ->
  In N cols0 ->
  cell_at cols0 r N = cell_at cols1 r N.
Proof.
  intros H. revert r.
  induction H as [| a b l1 l2 Hab Hrest IH]; intros r Hu Hin;
    [contradiction |].
  destruct r as [| v r]; [reflexivity |].
  unfold cell_at. simpl. simpl in Hu. rewrite (String.eqb_sym N b) in Hu.
  destruct (String.eqb a N) eqn:Ea.
  - apply String.eqb_eq in Ea. rewrite (Hab Ea), String.eqb_refl. reflexivity.
  - apply String.eqb_neq in Ea.
    destruct Hin as [E | Hin]; [congruence |].
    destruct (String.eqb b N) eqn:Eb.
    + exfalso. apply NoDup_cons_iff in Hu. destruct Hu as [Hu _].
      apply String.eqb_eq in Eb. subst b.
      apply Hu, filter_In. split; [| apply String.eqb_refl].
      now apply (Forall2_kept_In N l1 l2).
    + now apply IH.
Qed.

Lemma NoDup_flat_map_part (f : string -> list string) (l : list string)
    (a : string) :
  NoDup (flat_map f l) -> In a l -> NoDup (f a).
Proof.
  induction l as [| x l IH]; simpl; [tauto |].
  intros Hnd [-> | Hin].
  - now apply NoDup_app_remove_r in Hnd.
  - apply IH; [| assumption]. now apply NoDup_app_remove_l in Hnd.
Qed.

Lemma cell_at_map (f : string -> cell) (cols : list string) (N : string) :
  In N cols -> cell_at cols (map f cols) N = f N.
Proof.
  unfold cell_at. induction cols as [| a cols IH]; simpl; [tauto |].
  intros Hin. destruct (String.eqb a N) eqn:E.
  - apply String.eqb_eq in E. now subst.
  - apply String.eqb_neq in E. destruct Hin; [congruence | auto].
Qed.

(** C10, as far as it holds: a source column whose name is also a target
    column name, and which no mapping item renames to another target
    column, is one of the common columns whether or not the mapping
    mentions it; in a call that returns it is counted in [mapped_columns]
    and every appended row carries the source row's value under it, blanks
    filled with the empty string. *)
Theorem same_name_column_is_common
    (list_of_set : list string -> list string)
    (source_df target_df : DataFrame) (m : Dict.t) (name : string) :
  set_order list_of_set ->
  well_formed source_df -> well_formed target_df ->
  NoDup (columns target_df) ->
  In name (columns source_df) -> In name (columns target_df) ->
  (forall t s, In (t, s) (Dict.items m) -> s = name -> t = name) ->
  let common :=
    common_columns_of list_of_set (apply_mappings source_df m) target_df in
  In name common
  /\ forall merged stats,
       append_data list_of_set source_df target_df m = Returned (merged, stats) ->
       mapped_columns stats = length common
       /\ forall i r,
            nth_error (rows source_df) i = Some r ->
            exists r',
              nth_error (rows merged) (len target_df + i) = Some r'
              /\ cell_at (columns target_df) r' name
                 = fillna (cell_at (columns source_df) r name).
Proof.
  intros Hord Hws Hwt Hnt Hsrc Htgt Hkeep common.
  pose proof (apply_mappings_keeps name source_df m Hkeep) as Hkept.
  assert (Hmapped : In name (columns (apply_mappings source_df m)))
    by now apply (Forall2_kept_In name (columns source_df)).
  assert (Hcommon : In name common)
    by now apply (common_columns_In list_of_set _ target_df name Hord).
  split; [exact Hcommon |].
  intros merged stats Hrun.
  rewrite (append_data_aligned list_of_set source_df target_df m
             Hord Hws Hwt Hnt) in Hrun.
  cbv zeta in Hrun. fold common in Hrun.
  destruct (has_duplicates _) eqn:Hdup in Hrun; [discriminate |].
  injection Hrun as <- <-. simpl. split; [reflexivity |].
  intros i r Hr.
  exists (aligned_row (columns (apply_mappings source_df m))
                      (columns target_df) r).
  split.
  - rewrite nth_error_app2 by (unfold len; lia).
    replace (len target_df + i - length (rows target_df)) with i
      by (unfold len; lia).
    rewrite nth_error_map, Hr. reflexivity.
  - unfold aligned_row. rewrite cell_at_map by assumption.
    rewrite (proj2 (mem_In _ _) Hmapped). f_equal. symmetry.
    apply cell_at_kept; try assumption.
    apply has_duplicates_NoDup in Hdup. simpl in Hdup.
    exact (NoDup_flat_map_part _ _ name Hdup Hcommon).
Qed.

Lemma same_name_column_is_common_witness :
  let common :=
    common_columns_of Example.reversed
      (apply_mappings Example.source_df []) Example.target_df in
  In "Email" common
  /\ forall merged stats,
       append_data Example.reversed Example.source_df Example.target_df []
       = Returned (merged, stats) ->
       mapped_columns stats = length common
       /\ forall i r,
            nth_error (rows Example.source_df) i = Some r ->
            exists r',
              nth_error (rows merged) (len Example.target_df + i) = Some r'
              /\ cell_at (columns Example.target_df) r' "Email"
                 = fillna (cell_at (columns Example.source_df) r "Email").
Proof.
  apply (same_name_column_is_common Example.reversed Example.source_df
           Example.target_df [] "Email").
  - exact reversed_set_order.
  - repeat constructor.
  - repeat constructor.
  - apply has_duplicates_NoDup. reflexivity.
  - simpl. tauto.
  - simpl. tauto.
  - intros t s [].
Defined.

(** C10, as stated, fails: the source column [Name] is also a target
    column, the pair (Name, Name) is nowhere in the mapping, yet the item
    that maps [Full Name] onto it renames it away; [Name] is no common
    column, is not counted, and the appended row is blank under it. *)
Lemma same_name_column_renamed_away :
  In "Name" (columns Example.source_df)
  /\ In "Name" (columns Example.roster_df)
  /\ ~ In ("Name", "Name") (Dict.items Example.roster_mappings)
  /\ ~ In "Name"
       (common_columns_of Example.as_built
          (apply_mappings Example.source_df Example.roster_mappings)
          Example.roster_df)
  /\ append_data Example.as_built Example.source_df Example.roster_df
                 Example.roster_mappings
     = Returned
         (mkDataFrame ["Name"; "Full Name"]
            [ [Str "Zoe"; Str "Zoe Z."];
              [NaN; Str "Ann"];
              [NaN; Str "Bob"];
              [NaN; Str EmptyString] ],
          mkStatistics 3 2 1 3).
Proof.
  split; [simpl; tauto |]. split; [simpl; tauto |].
  split; [simpl; intros [H | []]; discriminate |].
  split; [| reflexivity].
  vm_compute. intros [H | []]. discriminate.
Qed.

(** ** One source column referenced twice *)






(** ** Dict *)

Lemma get_set_same (d : Dict.t) (k v : string) :
  Dict.get (Dict.set d k v) k = Some v.
Proof.
  induction d as [| [k' v'] d IH]; simpl.
  - now rewrite String.eqb_refl.
  - destruct (String.eqb k' k) eqn:E; simpl.
    + now rewrite String.eqb_refl.
    + now rewrite E.
Qed.

Lemma get_set_other (d : Dict.t) (k v k0 : string) :
  k <> k0 -> Dict.get (Dict.set d k v) k0 = Dict.get d k0.
Proof.
  intros Hne. induction d as [| [k' v'] d IH]; simpl.
  - apply String.eqb_neq in Hne. now rewrite Hne.
  - destruct (String.eqb k' k) eqn:E; simpl.
    + apply String.eqb_eq in E. subst k'.
      apply String.eqb_neq in Hne. now rewrite Hne.
    + now rewrite IH.
Qed.

Lemma In_set (d : Dict.t) (k v k0 v0 : string) :
  In (k0, v0) (Dict.set d k v) -> (k0 = k /\ v0 = v) \/ In (k0, v0) d.
Proof.
  induction d as [| [k' v'] d IH]; simpl.
  - intros [H | []]. injection H as <- <-. now left.
  - destruct (String.eqb k' k) eqn:E; simpl.
    + intros [H | H]; [injection H as <- <-; now left | now right; right].
    + intros [H | H]; [now right; left |].
      destruct (IH H) as [? | ?]; [now left | now right; right].
Qed.

Lemma keys_set (d : Dict.t) (k v k0 : string) :
  In k0 (Dict.keys (Dict.set d k v)) <-> k0 = k \/ In k0 (Dict.keys d).
Proof.
  induction d as [| [k' v'] d IH]; simpl.
  - intuition.
  - destruct (String.eqb k' k) eqn:E; simpl.
    + apply String.eqb_eq in E. subst k'. intuition.
    + rewrite IH. intuition.
Qed.

Lemma set_NoDup (d : Dict.t) (k v : string) :
  NoDup (Dict.keys d) -> NoDup (Dict.keys (Dict.set d k v)).
Proof.
  induction d as [| [k' v'] d IH]; simpl; intros Hnd.
  - constructor; [tauto | constructor].
  - apply NoDup_cons_iff in Hnd. destruct Hnd as [Hk Hnd].
    destruct (String.eqb k' k) eqn:E; simpl.
    + apply String.eqb_eq in E. subst k'. now constructor.
    + constructor; [| now apply IH].
      fold (Dict.keys (Dict.set d k v)). rewrite keys_set.
      apply String.eqb_neq in E. intros [H | H]; [congruence | contradiction].
Qed.

(** ** load_mappings *)

Section Loading.

Variable scorer : string -> string -> nat.
Variable source_columns : list string.

Lemma load_mappings_fold (target_columns : list string)
    (self : MappingReviewDialog) :
  fold_left (load_column scorer source_columns) target_columns self
  = mkMappingReviewDialog
      (mapping_tree self
       ++ map (row_for scorer source_columns) target_columns)
      (exact_entries source_columns (manual_mappings self) target_columns).
Proof.
  revert self. induction target_columns as [| t ts IH]; intros self; simpl.
  - rewrite app_nil_r. now destruct self.
  - rewrite IH. unfold load_column, row_for.
    destruct (mem t source_columns); simpl; now rewrite <- app_assoc.
Qed.

Lemma exact_entries_get (target_columns : list string) (d : Dict.t)
    (t : string) :
  Dict.get (exact_entries source_columns d target_columns) t
  = if mem t source_columns && mem t target_columns then Some t
    else Dict.get d t.
Proof.
  revert d. induction target_columns as [| a ts IH]; intros d; simpl.
  - now rewrite andb_false_r.
  - unfold exact_entries in *. simpl. rewrite IH.
    destruct (mem t source_columns) eqn:Hs, (mem t ts) eqn:Ht; simpl;
      try reflexivity; rewrite ?orb_true_r, ?orb_false_r; try reflexivity.
    + destruct (String.eqb t a) eqn:E.
      * apply String.eqb_eq in E. subst a. rewrite Hs. apply get_set_same.
      * apply String.eqb_neq in E.
        destruct (mem a source_columns); [| reflexivity].
        apply get_set_other. congruence.
    + destruct (mem a source_columns) eqn:Ha; [| reflexivity].
      apply get_set_other. intros ->. congruence.
    + destruct (mem a source_columns) eqn:Ha; [| reflexivity].
      apply get_set_other. intros ->. congruence.
Qed.

Lemma exact_entries_In (target_columns : list string) (d : Dict.t)
    (t s : string) :
  In (t, s) (exact_entries source_columns d target_columns) ->
  In (t, s) d
  \/ (t = s /\ In t target_columns /\ In t source_columns).
Proof.
  revert d. induction target_columns as [| a ts IH]; intros d; simpl;
    [now left |].
  unfold exact_entries in *. simpl. intros H. apply IH in H.
  destruct H as [H | [E [Ht Hs]]]; [| now right; repeat split; auto].
  destruct (mem a source_columns) eqn:Ha; [| now left].
  apply In_set in H. destruct H as [[-> ->] | H]; [| now left].
  right. apply mem_In in Ha. auto.
Qed.

Lemma exact_entries_NoDup (target_columns : list string) (d : Dict.t) :
  NoDup (Dict.keys d) -> NoDup (Dict.keys (exact_entries source_columns d target_columns)).
Proof.
  revert d. induction target_columns as [| a ts IH]; intros d Hnd;
    [assumption |].
  unfold exact_entries in *. simpl. apply IH.
  destruct (mem a source_columns); [now apply set_NoDup | assumption].
Qed.

Lemma init_loaded (target_columns : list string) :
  init scorer source_columns target_columns
  = Returned
      (mkMappingReviewDialog
         (map (row_for scorer source_columns) target_columns)
         (exact_entries source_columns Dict.empty target_columns)).
Proof.
  unfold init, load_mappings. now rewrite load_mappings_fold.
Qed.

End Loading.

(** ** process.extract *)

Section Ranking.

Variable scorer : string -> string -> nat.

Lemma extractWithoutOrder_scores (query : string) (choices : list string) :
  extractWithoutOrder scorer query choices
  = map (fun choice => (choice, scorer query choice)) choices.
Proof.
  unfold extractWithoutOrder, score_cutoff.
  induction choices as [| c cs IH]; simpl; [reflexivity |].
  f_equal. exact IH.
Qed.

Lemma In_insert_by_score (m x : string * nat) (l : list (string * nat)) :
  In x (insert_by_score m l) <-> x = m \/ In x l.
Proof.
  induction l as [| y l IH]; simpl; [intuition |].
  destruct (Nat.ltb (snd m) (snd y)); simpl; [rewrite IH |]; intuition.
Qed.

Lemma In_sort_by_score (x : string * nat) (l : list (string * nat)) :
  In x (sort_by_score l) <-> In x l.
Proof.
  induction l as [| y l IH]; simpl; [tauto |].
  rewrite In_insert_by_score, IH. intuition.
Qed.

Lemma insert_descending (m : string * nat) (l : list (string * nat)) :
  descending l -> descending (insert_by_score m l).
Proof.
  unfold descending. intros H.
  induction H as [| y l Hl IH Hy]; simpl.
  - constructor; constructor.
  - destruct (Nat.ltb (snd m) (snd y)) eqn:E.
    + apply Nat.ltb_lt in E. constructor; [exact IH |].
      apply Forall_forall. intros x Hx.
      apply In_insert_by_score in Hx. destruct Hx as [-> | Hx]; [lia |].
      rewrite Forall_forall in Hy. now apply Hy.
    + apply Nat.ltb_ge in E. constructor; [now constructor |].
      constructor; [exact E |].
      eapply Forall_impl; [| exact Hy]. simpl. intros x Hx. lia.
Qed.

Lemma filter_insert_by_score (m : string * nat) (l : list (string * nat))
    (v : nat) :
  filter (fun x => Nat.eqb (snd x) v) (insert_by_score m l)
  = if Nat.eqb (snd m) v
    then m :: filter (fun x => Nat.eqb (snd x) v) l
    else filter (fun x => Nat.eqb (snd x) v) l.
Proof.
  induction l as [| y l IH]; simpl; [reflexivity |].
  destruct (Nat.ltb (snd m) (snd y)) eqn:E; simpl.
  - rewrite IH. apply Nat.ltb_lt in E.
    destruct (Nat.eqb (snd m) v) eqn:Em; [| reflexivity].
    apply Nat.eqb_eq in Em.
    destruct (Nat.eqb (snd y) v) eqn:Ey; [| reflexivity].
    apply Nat.eqb_eq in Ey. lia.
  - reflexivity.
Qed.

Lemma sort_by_score_stable (l : list (string * nat)) :
  stable_ranking l (sort_by_score l).
Proof.
  split.
  - induction l as [| x l IH]; simpl; [constructor |].
    now apply insert_descending.
  - intros v. induction l as [| x l IH]; simpl; [reflexivity |].
    rewrite filter_insert_by_score, IH. reflexivity.
Qed.

Lemma extract_top_k (query : string) (choices : list string) (limit : nat) :
  top_k limit (map (fun choice => (choice, scorer query choice)) choices)
        (extract scorer query choices limit).
Proof.
  unfold extract, nlargest. rewrite extractWithoutOrder_scores.
  eexists. split; [apply sort_by_score_stable | reflexivity].
Qed.

Lemma In_firstn (k : nat) (l : list (string * nat)) (x : string * nat) :
  In x (firstn k l) -> In x l.
Proof.
  revert l. induction k as [| k IH]; intros [| y l]; simpl; try tauto.
  intros [H | H]; [now left | right; now apply IH].
Qed.

Lemma extract_from_choices (query : string) (choices : list string)
    (limit : nat) (c : string) (n : nat) :
  In (c, n) (extract scorer query choices limit) -> In c choices.
Proof.
  unfold extract, nlargest. rewrite extractWithoutOrder_scores.
  intros H. apply In_firstn, In_sort_by_score, in_map_iff in H.
  destruct H as [c' [E H]]. now injection E as <- _.
Qed.

End Ranking.

(** ** Rows of the loaded dialog *)

(** C6: a target column whose name occurs in the source header gets a row
    that shows that name as its source, no dropdown, and the mapping
    [name -> name]: status Exact, the chosen source column is that name,
    no candidates. *)
Theorem exact_match_entry (scorer : string -> string -> nat)
    (source_columns target_columns : list string) (i : nat) (t : string) :
  nth_error target_columns i = Some t ->
  In t source_columns ->
  exists self row,
    init scorer source_columns target_columns = Returned self
    /\ nth_error (mapping_tree self) i = Some row
    /\ text0 row = t /\ text1 row = t /\ widget row = None
    /\ Dict.get (get_manual_mappings self) t = Some t
    /\ entry_of self row = mkMappingEntry t Exact (Some t) [].
Proof.
  intros Hi Hs. rewrite init_loaded. eexists. eexists.
  split; [reflexivity |]. simpl.
  rewrite nth_error_map, Hi. simpl.
  assert (Hrow : row_for scorer source_columns t = mkQTreeWidgetItem t t None).
  { unfold row_for. now rewrite (proj2 (mem_In _ _) Hs). }
  assert (Hget : Dict.get (exact_entries source_columns Dict.empty target_columns) t
                 = Some t).
  { rewrite exact_entries_get, (proj2 (mem_In _ _) Hs).
    now rewrite (proj2 (mem_In _ _) (nth_error_In _ _ Hi)). }
  rewrite Hrow. split; [reflexivity |].
  unfold get_manual_mappings, entry_of.
  cbn [widget text0 text1 manual_mappings].
  rewrite Hget. repeat split.
Qed.

Lemma exact_match_entry_witness :
  exists self row,
    init Example.initial_score ["Name"; "Email"] ["Name"; "E-mail"]
    = Returned self
    /\ nth_error (mapping_tree self) 0 = Some row
    /\ text0 row = "Name" /\ text1 row = "Name" /\ widget row = None
    /\ Dict.get (get_manual_mappings self) "Name" = Some "Name"
    /\ entry_of self row = mkMappingEntry "Name" Exact (Some "Name") [].
Proof.
  apply (exact_match_entry Example.initial_score
           ["Name"; "Email"] ["Name"; "E-mail"] 0 "Name").
  - reflexivity.
  - simpl. tauto.
Defined.

(** C7: a target column whose name does not occur in the source header
    gets a row that shows "Not Mapped" and a dropdown with, after the
    placeholder, those of the top 5 fuzzy candidates from the source
    header that score at least 60; no mapping is entered for it.  Its
    status is Suggested when a candidate was kept and Unmapped otherwise,
    and it has no chosen source column. *)
Theorem unmatched_entry (scorer : string -> string -> nat)
    (source_columns target_columns : list string) (i : nat) (t : string) :
  nth_error target_columns i = Some t ->
  ~ In t source_columns ->
  let top5 := extract scorer t source_columns 5 in
  let kept := filter (fun c => Nat.leb 60 (snd c)) top5 in
  top_k 5 (map (fun c => (c, scorer t c)) source_columns) top5
  /\ exists self row,
       init scorer source_columns target_columns = Returned self
       /\ nth_error (mapping_tree self) i = Some row
       /\ text0 row = t /\ text1 row = "Not Mapped"
       /\ widget row
          = Some (mkQComboBox ("Select mapping..." :: map fst kept) 0)
       /\ Dict.get (get_manual_mappings self) t = None
       /\ entry_of self row
          = mkMappingEntry t
              (match kept with [] => Unmapped | _ :: _ => Suggested end)
              None (map fst kept).
Proof.
  intros Hi Hs top5 kept. split; [apply extract_top_k |].
  rewrite init_loaded. eexists. eexists.
  split; [reflexivity |]. simpl.
  rewrite nth_error_map, Hi. simpl.
  assert (Hrow : row_for scorer source_columns t
                 = mkQTreeWidgetItem t "Not Mapped"
                     (Some (mkQComboBox ("Select mapping..." :: map fst kept) 0))).
  { unfold row_for. now rewrite (proj2 (mem_not_In _ _) Hs). }
  assert (Hget : Dict.get (exact_entries source_columns Dict.empty target_columns) t
                 = None).
  { rewrite exact_entries_get, (proj2 (mem_not_In _ _) Hs). reflexivity. }
  rewrite Hrow. clearbody kept. split; [reflexivity |].
  unfold get_manual_mappings, entry_of.
  cbn [widget text0 text1 combo_items tl manual_mappings].
  rewrite Hget. repeat split. now destruct kept.
Qed.

Lemma unmatched_entry_witness :
  let top5 := extract Example.initial_score "E-mail" ["Name"; "Email"] 5 in
  let kept := filter (fun c => Nat.leb 60 (snd c)) top5 in
  top_k 5 (map (fun c => (c, Example.initial_score "E-mail" c)) ["Name"; "Email"])
        top5
  /\ exists self row,
       init Example.initial_score ["Name"; "Email"] ["Name"; "E-mail"]
       = Returned self
       /\ nth_error (mapping_tree self) 1 = Some row
       /\ text0 row = "E-mail" /\ text1 row = "Not Mapped"
       /\ widget row
          = Some (mkQComboBox ("Select mapping..." :: map fst kept) 0)
       /\ Dict.get (get_manual_mappings self) "E-mail" = None
       /\ entry_of self row
          = mkMappingEntry "E-mail"
              (match kept with [] => Unmapped | _ :: _ => Suggested end)
              None (map fst kept).
Proof.
  apply (unmatched_entry Example.initial_score
           ["Name"; "Email"] ["Name"; "E-mail"] 1 "E-mail").
  - reflexivity.
  - simpl. intros [H | [H | []]]; discriminate.
Defined.

(** C3, as far as it holds: [load_mappings] has no failing path.  For
    every target header, repeated names included, it returns a dialog with
    one row per position of the header, and a dict with one entry
    [name -> name] per distinct name that is also a source column; a
    repeated name is assigned again and leaves the single entry as it is. *)
Theorem load_mappings_returns (scorer : string -> string -> nat)
    (source_columns target_columns : list string) :
  exists self,
    init scorer source_columns target_columns = Returned self
    /\ map text0 (mapping_tree self) = target_columns
    /\ NoDup (Dict.keys (get_manual_mappings self))
    /\ (forall t, In t target_columns -> In t source_columns ->
                  Dict.get (get_manual_mappings self) t = Some t)
    /\ (forall t s, In (t, s) (Dict.items (get_manual_mappings self)) ->
                    t = s /\ In t target_columns /\ In t source_columns).
Proof.
  rewrite init_loaded. eexists. split; [reflexivity |].
  unfold get_manual_mappings. simpl. repeat split.
  - rewrite map_map. rewrite <- (map_id target_columns) at 2.
    apply map_ext. intros t. unfold row_for.
    now destruct (mem t source_columns).
  - apply exact_entries_NoDup. constructor.
  - intros t Ht Hs. rewrite exact_entries_get.
    now rewrite (proj2 (mem_In _ _) Hs), (proj2 (mem_In _ _) Ht).
  - apply exact_entries_In in H. destruct H as [[] | H]. tauto.
  - apply exact_entries_In in H. destruct H as [[] | H]. tauto.
  - apply exact_entries_In in H. destruct H as [[] | H]. tauto.
Qed.

(** C3, as stated, fails: the target header [Name, Name] is loaded without
    an error; both rows are built and the dict holds the one entry. *)
Lemma repeated_name_is_loaded :
  init Example.initial_score ["Name"] ["Name"; "Name"]
  = Returned
      (mkMappingReviewDialog
         [ mkQTreeWidgetItem "Name" "Name" None;
           mkQTreeWidgetItem "Name" "Name" None ]
         [("Name", "Name")])
  /\ init Example.initial_score ["Name"] ["Name"; "Name"]
     <> Raised "DuplicateColumn".
Proof.
  split; [reflexivity |]. vm_compute. discriminate.
Qed.

(** ** Choices in a dropdown *)

Lemma map_update_item (A : Type) (g : QTreeWidgetItem -> A)
    (tree : list QTreeWidgetItem) (i : nat)
    (f : QTreeWidgetItem -> QTreeWidgetItem) :
  (forall row, g (f row) = g row) ->
  map g (update_item tree i f) = map g tree.
Proof.
  intros H. revert i. induction tree as [| r tree IH]; intros [| i]; simpl;
    try reflexivity.
  - now rewrite H.
  - now rewrite IH.
Qed.

(** C8, as stated, fails: after [Email] was chosen for [E-mail], going
    back to the placeholder leaves the entry mapped to [Email]. *)
Lemma placeholder_does_not_clear :
  (loaded <- init Example.initial_score ["Name"; "Email"] ["Name"; "E-mail"] ;;
   chosen <- choose loaded 1 1 ;;
   choose chosen 1 0)
  = Returned
      (mkMappingReviewDialog
         [ mkQTreeWidgetItem "Name" "Name" None;
           mkQTreeWidgetItem "E-mail" "Email"
             (Some (mkQComboBox ["Select mapping..."; "Email"] 0)) ]
         [("Name", "Name"); ("E-mail", "Email")])
  /\ entry_of
       (mkMappingReviewDialog
          [ mkQTreeWidgetItem "Name" "Name" None;
            mkQTreeWidgetItem "E-mail" "Email"
              (Some (mkQComboBox ["Select mapping..."; "Email"] 0)) ]
          [("Name", "Name"); ("E-mail", "Email")])
       (mkQTreeWidgetItem "E-mail" "Email"
          (Some (mkQComboBox ["Select mapping..."; "Email"] 0)))
     = mkMappingEntry "E-mail" ManuallySet (Some "Email") ["Email"].
Proof.
  split; reflexivity.
Qed.

(** ** Reachable dialogs *)

Lemma nth_error_update_item (tree : list QTreeWidgetItem) (i : nat)
    (f : QTreeWidgetItem -> QTreeWidgetItem) (row : QTreeWidgetItem) :
  nth_error tree i = Some row ->
  nth_error (update_item tree i f) i = Some (f row).
Proof.
  revert i. induction tree as [| r tree IH]; intros [| i]; simpl;
    try discriminate.
  - now intros [= ->].
  - apply IH.
Qed.

Lemma Forall_update_item (P : QTreeWidgetItem -> Prop)
    (tree : list QTreeWidgetItem) (i : nat)
    (f : QTreeWidgetItem -> QTreeWidgetItem) :
  Forall P tree ->
  (forall row, nth_error tree i = Some row -> P (f row)) ->
  Forall P (update_item tree i f).
Proof.
  intros H. revert i. induction H as [| r tree Hr Htree IH]; intros [| i] Hf;
    simpl; constructor; auto.
Qed.

Lemma nth_in_tail (l : list string) (i : nat) :
  0 < i -> i < length l -> In (nth i l EmptyString) (tl l).
Proof.
  destruct l as [| x l]; simpl; [lia |].
  destruct i as [| i]; [lia |]. intros _ H. apply nth_In. lia.
Qed.

Lemma row_for_offers (scorer : string -> string -> nat)
    (source_columns : list string) (t : string) :
  offers_source_columns source_columns (row_for scorer source_columns t).
Proof.
  unfold offers_source_columns, row_for.
  destruct (mem t source_columns) eqn:E; simpl; [discriminate |].
  intros combo [= <-]. split; [now apply mem_not_In |].
  simpl. intros s Hs. apply in_map_iff in Hs.
  destruct Hs as [[c n] [<- Hc]]. apply filter_In in Hc.
  destruct Hc as [Hc _]. now apply extract_from_choices in Hc.
Qed.

Lemma init_consistent (scorer : string -> string -> nat)
    (source_columns target_columns : list string) (self : MappingReviewDialog) :
  init scorer source_columns target_columns = Returned self ->
  consistent source_columns self.
Proof.
  rewrite init_loaded. intros [= <-]. unfold consistent. simpl.
  split; [| split].
  - apply Forall_map, Forall_forall. intros t _. apply row_for_offers.
  - intros t s H. apply exact_entries_In in H.
    destruct H as [[] | [-> [_ H]]]. auto.
  - apply exact_entries_NoDup. constructor.
Qed.

Lemma choose_consistent (source_columns : list string)
    (self self' : MappingReviewDialog) (item index : nat) :
  consistent source_columns self ->
  choose self item index = Returned self' ->
  consistent source_columns self'.
Proof.
  intros Hcons. pose proof Hcons as [Htree [Hdict Hkeys]]. unfold choose.
  destruct (nth_error (mapping_tree self) item) as [row |] eqn:Hrow;
    [| intros [= <-]; exact Hcons].
  destruct (widget row) as [combo |] eqn:Hw;
    [| intros [= <-]; exact Hcons].
  destruct (Nat.ltb index (length (combo_items combo))
            && negb (Nat.eqb index (currentIndex combo))) eqn:Hc;
    [| intros [= <-]; exact Hcons].
  apply andb_prop in Hc. destruct Hc as [Hlt _]. apply Nat.ltb_lt in Hlt.
  pose proof (proj1 (Forall_forall _ _) Htree row (nth_error_In _ _ Hrow))
    as Hoffers.
  destruct (Hoffers combo Hw) as [Hfresh Hitems].
  set (combo' := mkQComboBox (combo_items combo) index).
  set (tree1 := update_item (mapping_tree self) item
                  (fun it => mkQTreeWidgetItem (text0 it) (text1 it) (Some combo'))).
  assert (Htree1 : Forall (offers_source_columns source_columns) tree1).
  { apply Forall_update_item; [assumption |].
    intros row0 H0. rewrite Hrow in H0. injection H0 as <-.
    intros c. simpl. intros [= <-]. now split. }
  unfold on_mapping_selected. simpl.
  destruct (Nat.ltb 0 index) eqn:Hpos.
  - fold combo'. fold tree1.
    assert (Hnth : nth_error tree1 item
                   = Some (mkQTreeWidgetItem (text0 row) (text1 row) (Some combo')))
      by (unfold tree1; now rewrite (nth_error_update_item _ _ _ row Hrow)).
    rewrite Hnth. intros [= <-].
    apply Nat.ltb_lt in Hpos. unfold consistent. simpl. split; [| split].
    + apply Forall_update_item; [assumption |].
      intros row0 H0 c. simpl. intros Hc.
      pose proof (proj1 (Forall_forall _ _) Htree1 row0 (nth_error_In _ _ H0))
        as H1.
      exact (H1 c Hc).
    + intros t s H. apply In_set in H. destruct H as [[-> ->] | H].
      * split; [| now right]. apply Hitems. unfold currentText. simpl.
        now apply nth_in_tail.
      * now apply Hdict.
    + now apply set_NoDup.
  - intros [= <-]. unfold consistent. simpl. fold tree1.
    split; [exact Htree1 | split; assumption].
Qed.

Lemma reachable_consistent (scorer : string -> string -> nat)
    (source_columns target_columns : list string) (self : MappingReviewDialog) :
  reachable scorer source_columns target_columns self ->
  consistent source_columns self.
Proof.
  intros H. induction H as [self H | self item index self' _ IH H].
  - now apply (init_consistent scorer source_columns target_columns).
  - now apply (choose_consistent source_columns self self' item index).
Qed.

Lemma choose_returns (self : MappingReviewDialog) (item index : nat) :
  exists self', choose self item index = Returned self'.
Proof.
  unfold choose.
  destruct (nth_error (mapping_tree self) item) as [row |] eqn:Hrow;
    [| now eexists].
  destruct (widget row) as [combo |]; [| now eexists].
  destruct (_ && _); [| now eexists].
  unfold on_mapping_selected. simpl.
  destruct (Nat.ltb 0 index); [| now eexists].
  rewrite (nth_error_update_item _ _ _ row Hrow). now eexists.
Qed.

(** The mapping a reachable dialog hands over is a finalized one. *)
Lemma reachable_finalized (scorer : string -> string -> nat)
    (source_columns target_columns : list string) (self : MappingReviewDialog) :
  reachable scorer source_columns target_columns self ->
  finalized source_columns (get_manual_mappings self).
Proof.
  intros H. apply reachable_consistent in H.
  destruct H as [_ [Hdict Hkeys]]. split; [assumption |].
  intros t s Hin. exact (proj2 (Hdict t s Hin)).
Qed.

(** C4, as far as it holds: a manual override cannot name a column that
    the source header lacks.  Every dropdown of a loaded dialog offers
    source columns only, so after any sequence of choices every choice
    returns, without an error, a dialog whose mapping refers to source
    columns only. *)
Theorem override_names_source_column (scorer : string -> string -> nat)
    (source_columns target_columns : list string)
    (self : MappingReviewDialog) (item index : nat) :
  reachable scorer source_columns target_columns self ->
  exists self',
    choose self item index = Returned self'
    /\ forall t s, In (t, s) (Dict.items (get_manual_mappings self')) ->
                   In s source_columns.
Proof.
  intros Hreach. destruct (choose_returns self item index) as [self' Hrun].
  exists self'. split; [exact Hrun |].
  pose proof (reachable_consistent _ _ _ _
                (reach_choose _ _ _ _ _ _ _ Hreach Hrun)) as [_ [Hdict _]].
  intros t s H. exact (proj1 (Hdict t s H)).
Qed.

Lemma override_names_source_column_witness :
  exists self',
    choose
      (mkMappingReviewDialog
         [ mkQTreeWidgetItem "Name" "Name" None;
           mkQTreeWidgetItem "E-mail" "Not Mapped"
             (Some (mkQComboBox ["Select mapping..."; "Email"] 0)) ]
         [("Name", "Name")])
      1 1 = Returned self'
    /\ forall t s, In (t, s) (Dict.items (get_manual_mappings self')) ->
                   In s ["Name"; "Email"].
Proof.
  apply (override_names_source_column Example.initial_score
           ["Name"; "Email"] ["Name"; "E-mail"]).
  apply reach_init. reflexivity.
Defined.

(** C4, as stated, fails: the handler does not check the name it is given.
    Called with a combo that shows [Ghost], which the source header
    [Name, Email] lacks, it returns and enters [Ghost] in the mapping. *)
Lemma unknown_source_column_is_entered :
  ~ In "Ghost" ["Name"; "Email"]
  /\ on_mapping_selected
       (mkMappingReviewDialog
          [ mkQTreeWidgetItem "Name" "Name" None;
            mkQTreeWidgetItem "E-mail" "Not Mapped"
              (Some (mkQComboBox ["Select mapping..."; "Email"] 0)) ]
          [("Name", "Name")])
       1 (mkQComboBox ["Select mapping..."; "Ghost"] 1)
     = Returned
         (mkMappingReviewDialog
            [ mkQTreeWidgetItem "Name" "Name" None;
              mkQTreeWidgetItem "E-mail" "Ghost"
                (Some (mkQComboBox ["Select mapping..."; "Email"] 0)) ]
            [("Name", "Name"); ("E-mail", "Ghost")])
  /\ on_mapping_selected
       (mkMappingReviewDialog
          [ mkQTreeWidgetItem "Name" "Name" None;
            mkQTreeWidgetItem "E-mail" "Not Mapped"
              (Some (mkQComboBox ["Select mapping..."; "Email"] 0)) ]
          [("Name", "Name")])
       1 (mkQComboBox ["Select mapping..."; "Ghost"] 1)
     <> Raised "UnresolvedReference".
Proof.
  split; [simpl; intros [H | [H | []]]; discriminate |].
  split; [reflexivity |]. vm_compute. discriminate.
Qed.

(** * Further properties *)

(** ** Mapping items that change nothing *)

Lemma rename_to_itself (df : DataFrame) (s : string) : rename df s s = df.
Proof. destruct df as [cols rs]. unfold rename. simpl. now rewrite rename_same. Qed.

(** X1: a mapping item changes the renamed view only when it names, under
    another name, a column the view has at that point.  A mapping made of
    exact matches and of stale references (source columns the source
    sheet lacks) leaves the source frame as it is. *)
Theorem idle_mappings_change_nothing (source_df : DataFrame) (m : Dict.t) :
  (forall t s, In (t, s) (Dict.items m) ->
               t = s \/ ~ In s (columns source_df)) ->
  apply_mappings source_df m = source_df.
Proof.
  induction m as [| [t s] m IH]; intros H; [reflexivity |].
  rewrite apply_mappings_cons.
  assert (Hrest : apply_mappings source_df m = source_df)
    by (apply IH; intros t' s' Hin; apply H; now right).
  destruct (H t s (or_introl eq_refl)) as [-> | Habsent].
  - rewrite rename_to_itself. now destruct (mem s (columns source_df)).
  - now rewrite (proj2 (mem_not_In _ _) Habsent).
Qed.

Lemma idle_mappings_change_nothing_witness :
  apply_mappings Example.source_df
    [("Name", "Name"); ("Salary", "Wage"); ("Email", "Email")]
  = Example.source_df.
Proof.
  apply (idle_mappings_change_nothing Example.source_df
           [("Name", "Name"); ("Salary", "Wage"); ("Email", "Email")]).
  intros t s [H | [H | [H | []]]]; injection H as <- <-.
  - now left.
  - right. simpl. intros [E | [E | [E | []]]]; discriminate.
  - now left.
Defined.

(** X2: renaming invents no label: every label of the renamed view is a
    label of the source sheet or a target column of the mapping. *)
Theorem renamed_view_labels (source_df : DataFrame) (m : Dict.t) (c : string) :
  In c (columns (apply_mappings source_df m)) ->
  In c (columns source_df) \/ In c (Dict.keys m).
Proof.
  revert source_df. induction m as [| [t s] m IH]; intros df H; [now left |].
  rewrite apply_mappings_cons in H. apply IH in H. simpl.
  destruct H as [H | H]; [| now right; right].
  destruct (mem s (columns df)); [| now left].
  simpl in H. apply In_renamed in H. destruct H as [-> | H]; [right | ]; auto.
Qed.

Lemma renamed_view_labels_witness :
  In "E-mail" (columns Example.source_df)
  \/ In "E-mail" (Dict.keys Example.contacts_mappings).
Proof.
  apply (renamed_view_labels Example.source_df Example.contacts_mappings).
  simpl. tauto.
Defined.

(** ** Calls with any mapping *)

(** X3: whatever the mapping, a call of [append_data] that returns wrote
    a frame with the target's header, [len(target) + len(source)] rows,
    and the target's rows first and unchanged. *)
Theorem returned_frame_extends_target
    (list_of_set : list string -> list string)
    (source_df target_df merged : DataFrame) (m : Dict.t) (stats : Statistics) :
  set_order list_of_set ->
  well_formed source_df -> well_formed target_df ->
  NoDup (columns target_df) ->
  append_data list_of_set source_df target_df m = Returned (merged, stats) ->
  columns merged = columns target_df
  /\ len merged = len target_df + len source_df
  /\ firstn (len target_df) (rows merged) = rows target_df
  /\ well_formed merged.
Proof.
  intros Hord Hws Hwt Hnt Hrun.
  rewrite (append_data_aligned list_of_set source_df target_df m
             Hord Hws Hwt Hnt) in Hrun.
  cbv zeta in Hrun.
  destruct (has_duplicates _) in Hrun; [discriminate |].
  injection Hrun as <- _. unfold len, well_formed. simpl. repeat split.
  - now rewrite length_app, length_map.
  - rewrite firstn_app, Nat.sub_diag, firstn_all. simpl. apply app_nil_r.
  - apply Forall_app. split; [exact Hwt |].
    apply Forall_map, Forall_forall. intros r _.
    unfold aligned_row. apply length_map.
Qed.

Lemma returned_frame_extends_target_witness :
  columns (mkDataFrame ["Id"] [[Num 7]; [NaN]; [NaN]; [NaN]])
  = columns Example.ledger_df
  /\ len (mkDataFrame ["Id"] [[Num 7]; [NaN]; [NaN]; [NaN]])
     = len Example.ledger_df + len Example.source_df
  /\ firstn (len Example.ledger_df)
            (rows (mkDataFrame ["Id"] [[Num 7]; [NaN]; [NaN]; [NaN]]))
     = rows Example.ledger_df
  /\ well_formed (mkDataFrame ["Id"] [[Num 7]; [NaN]; [NaN]; [NaN]]).
Proof.
  apply (returned_frame_extends_target Example.as_built Example.source_df
           Example.ledger_df _ [("Email", "Name")] (mkStatistics 3 1 0 3)).
  - exact as_built_set_order.
  - repeat constructor.
  - repeat constructor.
  - apply has_duplicates_NoDup. reflexivity.
  - reflexivity.
Defined.

Lemma duplicated_common_label (cols labels : list string) :
  NoDup labels ->
  has_duplicates (flat_map (fun l => filter (String.eqb l) cols) labels) = true ->
  exists c, In c labels /\ has_duplicates (filter (String.eqb c) cols) = true.
Proof.
  intros Hnd Hdup.
  destruct (existsb (fun c => has_duplicates (filter (String.eqb c) cols)) labels)
    eqn:E.
  - apply existsb_exists in E. exact E.
  - exfalso.
    assert (Hall : forall c, In c labels -> NoDup (filter (String.eqb c) cols)).
    { intros c Hc. apply has_duplicates_NoDup.
      destruct (has_duplicates (filter (String.eqb c) cols)) eqn:Ec;
        [| reflexivity].
      assert (Hex : existsb
                      (fun c => has_duplicates (filter (String.eqb c) cols))
                      labels = true)
        by (apply existsb_exists; now exists c).
      congruence. }
    assert (Hno : NoDup (flat_map (fun l => filter (String.eqb l) cols) labels)).
    { clear Hdup E. induction Hnd as [| a ls Ha Hnd IH]; simpl; [constructor |].
      apply NoDup_app.
      - apply Hall. now left.
      - apply IH. intros c Hc. apply Hall. now right.
      - intros x Hx Hx'. apply filter_In in Hx. destruct Hx as [_ Ex].
        apply String.eqb_eq in Ex. subst x.
        apply in_flat_map in Hx'. destruct Hx' as [l [Hl Hx']].
        apply filter_In in Hx'. destruct Hx' as [_ Ex].
        apply String.eqb_eq in Ex. subst l. contradiction. }
    apply has_duplicates_NoDup in Hno. congruence.
Qed.

(** X4: [append_data] fails exactly when two columns of the renamed view
    carry the same label and the target has a column of that label; the
    exception is then InvalidIndexError, raised by [pd.concat]. *)
Theorem append_data_fails_on_duplicate_label
    (list_of_set : list string -> list string)
    (source_df target_df : DataFrame) (m : Dict.t) :
  set_order list_of_set ->
  well_formed source_df -> well_formed target_df ->
  NoDup (columns target_df) ->
  (exists c, In c (columns target_df)
             /\ has_duplicates
                  (filter (String.eqb c) (columns (apply_mappings source_df m)))
                = true)
  <-> append_data list_of_set source_df target_df m
      = Raised "InvalidIndexError".
Proof.
  intros Hord Hws Hwt Hnt.
  rewrite (append_data_aligned list_of_set source_df target_df m
             Hord Hws Hwt Hnt).
  cbv zeta.
  set (mapped := apply_mappings source_df m).
  set (common := common_columns_of list_of_set mapped target_df).
  split.
  - intros [c [Hc Hdup]].
    destruct (has_duplicates (columns (select mapped common))) eqn:E;
      [reflexivity | exfalso].
    apply has_duplicates_NoDup in E. simpl in E.
    assert (Hin : In c common).
    { apply (common_columns_In list_of_set mapped target_df c Hord).
      split; [| exact Hc].
      destruct (filter (String.eqb c) (columns mapped)) as [| x xs] eqn:Ef;
        [discriminate |].
      assert (Hx : In x (filter (String.eqb c) (columns mapped)))
        by (rewrite Ef; now left).
      apply filter_In in Hx. destruct Hx as [Hx Ex].
      apply String.eqb_eq in Ex. now subst. }
    pose proof (NoDup_flat_map_part _ _ c E Hin) as Hno.
    apply has_duplicates_NoDup in Hno. congruence.
  - destruct (has_duplicates (columns (select mapped common))) eqn:E;
      [intros _ | discriminate].
    simpl in E.
    destruct (duplicated_common_label (columns mapped) common
                (common_columns_NoDup list_of_set mapped target_df Hord) E)
      as [c [Hc Hdup]].
    exists c. split; [| exact Hdup].
    now apply (common_columns_In list_of_set mapped target_df c Hord) in Hc.
Qed.

Lemma append_data_fails_on_duplicate_label_witness :
  (exists c, In c (columns Example.target_df)
             /\ has_duplicates
                  (filter (String.eqb c)
                     (columns (apply_mappings Example.source_df
                                 [("Email", "Name")])))
                = true)
  <-> append_data Example.as_built Example.source_df Example.target_df
                  [("Email", "Name")]
      = Raised "InvalidIndexError".
Proof.
  apply (append_data_fails_on_duplicate_label Example.as_built
           Example.source_df Example.target_df [("Email", "Name")]).
  - exact as_built_set_order.
  - repeat constructor.
  - repeat constructor.
  - apply has_duplicates_NoDup. reflexivity.
Defined.

(** X5: in a call that returns, every appended row holds, under each
    target column that the renamed view has, the view's value with blanks
    turned into the empty string, hence never a blank; under every other
    target column it holds a blank. *)
Theorem appended_cells (list_of_set : list string -> list string)
    (source_df target_df merged : DataFrame) (m : Dict.t) (stats : Statistics)
    (i : nat) (r : list cell) :
  set_order list_of_set ->
  well_formed source_df -> well_formed target_df ->
  NoDup (columns target_df) ->
  append_data list_of_set source_df target_df m = Returned (merged, stats) ->
  nth_error (rows source_df) i = Some r ->
  let view := columns (apply_mappings source_df m) in
  exists r',
    nth_error (rows merged) (len target_df + i) = Some r'
    /\ forall c, In c (columns target_df) ->
         (In c view ->
          cell_at (columns target_df) r' c = fillna (cell_at view r c)
          /\ cell_at (columns target_df) r' c <> NaN)
         /\ (~ In c view -> cell_at (columns target_df) r' c = NaN).
Proof.
  intros Hord Hws Hwt Hnt Hrun Hr view.
  rewrite (append_data_aligned list_of_set source_df target_df m
             Hord Hws Hwt Hnt) in Hrun.
  cbv zeta in Hrun.
  destruct (has_duplicates _) in Hrun; [discriminate |].
  injection Hrun as <- _. simpl.
  exists (aligned_row view (columns target_df) r). split.
  - rewrite nth_error_app2 by (unfold len; lia).
    replace (len target_df + i - length (rows target_df)) with i
      by (unfold len; lia).
    rewrite nth_error_map, Hr. reflexivity.
  - intros c Hc. unfold aligned_row. rewrite cell_at_map by assumption.
    split; intros Hview.
    + rewrite (proj2 (mem_In _ _) Hview). split; [reflexivity |].
      now destruct (cell_at view r c).
    + now rewrite (proj2 (mem_not_In _ _) Hview).
Qed.

Lemma appended_cells_witness :
  let view :=
    columns (apply_mappings Example.source_df Example.contacts_mappings) in
  exists r',
    nth_error
      (rows (mkDataFrame ["E-mail"; "Contact"]
               [ [Str "zoe@x.org"; Str "zoe@x.org"];
                 [Str EmptyString; NaN];
                 [Str "bob@x.org"; NaN];
                 [Str EmptyString; NaN] ]))
      (len Example.contacts_df + 0) = Some r'
    /\ forall c, In c (columns Example.contacts_df) ->
         (In c view ->
          cell_at (columns Example.contacts_df) r' c
          = fillna (cell_at view [Str "Ann"; NaN; Num 1] c)
          /\ cell_at (columns Example.contacts_df) r' c <> NaN)
         /\ (~ In c view -> cell_at (columns Example.contacts_df) r' c = NaN).
Proof.
  apply (appended_cells Example.as_built Example.source_df
           Example.contacts_df _ Example.contacts_mappings
           (mkStatistics 3 2 1 3) 0 [Str "Ann"; NaN; Num 1]).
  - exact as_built_set_order.
  - repeat constructor.
  - repeat constructor.
  - apply has_duplicates_NoDup. reflexivity.
  - reflexivity.
  - reflexivity.
Defined.

(** X6: the number of mapped columns reported never exceeds the number of
    source columns nor the number of target columns reported. *)
Theorem mapped_columns_bounded (list_of_set : list string -> list string)
    (source_df target_df merged : DataFrame) (m : Dict.t) (stats : Statistics) :
  set_order list_of_set ->
  append_data list_of_set source_df target_df m = Returned (merged, stats) ->
  mapped_columns stats <= source_columns stats
  /\ mapped_columns stats <= target_columns stats.
Proof.
  intros Hord Hrun. unfold append_data in Hrun.
  destruct (concat _ _) as [appended_df | e]; simpl in Hrun; [| discriminate].
  injection Hrun as _ <-. simpl.
  rewrite <- (apply_mappings_width source_df m).
  split; apply NoDup_incl_length;
    try (now apply common_columns_NoDup);
    intros c Hc; apply (common_columns_In _ _ _ _ Hord) in Hc; tauto.
Qed.

Lemma mapped_columns_bounded_witness :
  mapped_columns (mkStatistics 3 2 2 3) <= source_columns (mkStatistics 3 2 2 3)
  /\ mapped_columns (mkStatistics 3 2 2 3)
     <= target_columns (mkStatistics 3 2 2 3).
Proof.
  eapply (mapped_columns_bounded Example.as_built Example.source_df
            Example.target_df _ Example.mappings).
  - exact as_built_set_order.
  - vm_compute. reflexivity.
Defined.

(** ** The handler of a dropdown *)

Lemma nth_error_update_item_other (tree : list QTreeWidgetItem) (i j : nat)
    (f : QTreeWidgetItem -> QTreeWidgetItem) :
  j <> i -> nth_error (update_item tree i f) j = nth_error tree j.
Proof.
  revert i j. induction tree as [| r tree IH]; intros [| i] [| j] H; simpl;
    try reflexivity; try congruence.
  apply IH. congruence.
Qed.

Lemma update_item_twice (tree : list QTreeWidgetItem) (i : nat)
    (f : QTreeWidgetItem -> QTreeWidgetItem) :
  (forall row, f (f row) = f row) ->
  update_item (update_item tree i f) i f = update_item tree i f.
Proof.
  intros H. revert i. induction tree as [| r tree IH]; intros [| i]; simpl;
    try reflexivity.
  - now rewrite H.
  - now rewrite IH.
Qed.

Lemma set_twice (d : Dict.t) (k v : string) :
  Dict.set (Dict.set d k v) k v = Dict.set d k v.
Proof.
  induction d as [| [k' v'] d IH]; simpl.
  - now rewrite String.eqb_refl.
  - destruct (String.eqb k' k) eqn:E; simpl.
    + now rewrite String.eqb_refl.
    + now rewrite E, IH.
Qed.

(** X7: a real choice (index above 0) on a row of the tree is recorded:
    the handler returns, the dict then maps the row's target column to the
    text the combo shows and keeps every other key as it was, and the row
    shows that text while every other row is untouched. *)
Theorem selection_is_recorded (self : MappingReviewDialog) (item : nat)
    (combo : QComboBox) (row : QTreeWidgetItem) :
  0 < currentIndex combo ->
  nth_error (mapping_tree self) item = Some row ->
  exists self',
    on_mapping_selected self item combo = Returned self'
    /\ Dict.get (get_manual_mappings self') (text0 row)
       = Some (currentText combo)
    /\ (forall k, k <> text0 row ->
          Dict.get (get_manual_mappings self') k
          = Dict.get (get_manual_mappings self) k)
    /\ nth_error (mapping_tree self') item
       = Some (mkQTreeWidgetItem (text0 row) (currentText combo) (widget row))
    /\ (forall j, j <> item ->
          nth_error (mapping_tree self') j = nth_error (mapping_tree self) j).
Proof.
  intros Hpos Hrow. unfold on_mapping_selected.
  rewrite (proj2 (Nat.ltb_lt _ _) Hpos), Hrow.
  eexists. split; [reflexivity |]. unfold get_manual_mappings. simpl.
  split; [apply get_set_same |].
  split; [intros k Hk; apply get_set_other; congruence |].
  split; [now rewrite (nth_error_update_item _ _ _ row Hrow) |].
  intros j Hj. now apply nth_error_update_item_other.
Qed.

Lemma selection_is_recorded_witness :
  exists self',
    on_mapping_selected
      (mkMappingReviewDialog
         [ mkQTreeWidgetItem "Name" "Name" None;
           mkQTreeWidgetItem "E-mail" "Not Mapped"
             (Some (mkQComboBox ["Select mapping..."; "Email"] 1)) ]
         [("Name", "Name")])
      1 (mkQComboBox ["Select mapping..."; "Email"] 1)
    = Returned self'
    /\ Dict.get (get_manual_mappings self') "E-mail" = Some "Email"
    /\ (forall k, k <> "E-mail" ->
          Dict.get (get_manual_mappings self') k
          = Dict.get [("Name", "Name")] k)
    /\ nth_error (mapping_tree self') 1
       = Some (mkQTreeWidgetItem "E-mail" "Email"
                 (Some (mkQComboBox ["Select mapping..."; "Email"] 1)))
    /\ (forall j, j <> 1 ->
          nth_error (mapping_tree self') j
          = nth_error
              [ mkQTreeWidgetItem "Name" "Name" None;
                mkQTreeWidgetItem "E-mail" "Not Mapped"
                  (Some (mkQComboBox ["Select mapping..."; "Email"] 1)) ]
              j).
Proof.
  apply (selection_is_recorded
           (mkMappingReviewDialog
              [ mkQTreeWidgetItem "Name" "Name" None;
                mkQTreeWidgetItem "E-mail" "Not Mapped"
                  (Some (mkQComboBox ["Select mapping..."; "Email"] 1)) ]
              [("Name", "Name")])
           1 (mkQComboBox ["Select mapping..."; "Email"] 1)
           (mkQTreeWidgetItem "E-mail" "Not Mapped"
              (Some (mkQComboBox ["Select mapping..."; "Email"] 1)))).
  - simpl. lia.
  - reflexivity.
Defined.

(** X8: the handler is idempotent: run again with the same row and the
    same combo on the dialog it returned, it returns that dialog. *)
Theorem handler_idempotent (self self' : MappingReviewDialog) (item : nat)
    (combo : QComboBox) :
  on_mapping_selected self item combo = Returned self' ->
  on_mapping_selected self' item combo = Returned self'.
Proof.
  unfold on_mapping_selected.
  destruct (Nat.ltb 0 (currentIndex combo)); [| now intros [= <-]].
  destruct (nth_error (mapping_tree self) item) as [row |] eqn:Hrow;
    [| discriminate].
  intros [= <-]. simpl.
  rewrite (nth_error_update_item _ _ _ row Hrow). simpl.
  rewrite set_twice, update_item_twice; reflexivity.
Qed.

Lemma handler_idempotent_witness :
  on_mapping_selected
    (mkMappingReviewDialog
       [ mkQTreeWidgetItem "E-mail" "Email"
           (Some (mkQComboBox ["Select mapping..."; "Email"] 1)) ]
       [("E-mail", "Email")])
    0 (mkQComboBox ["Select mapping..."; "Email"] 1)
  = Returned
      (mkMappingReviewDialog
         [ mkQTreeWidgetItem "E-mail" "Email"
             (Some (mkQComboBox ["Select mapping..."; "Email"] 1)) ]
         [("E-mail", "Email")]).
Proof.
  apply (handler_idempotent
           (mkMappingReviewDialog
              [ mkQTreeWidgetItem "E-mail" "Not Mapped"
                  (Some (mkQComboBox ["Select mapping..."; "Email"] 1)) ]
              [])
           _ 0 (mkQComboBox ["Select mapping..."; "Email"] 1)).
  reflexivity.
Defined.

(** ** What the choices of a user cannot change *)

Lemma map_update_item_at (A : Type) (g : QTreeWidgetItem -> A)
    (tree : list QTreeWidgetItem) (i : nat)
    (f : QTreeWidgetItem -> QTreeWidgetItem) :
  (forall row, nth_error tree i = Some row -> g (f row) = g row) ->
  map g (update_item tree i f) = map g tree.
Proof.
  revert i. induction tree as [| r tree IH]; intros [| i] H; simpl;
    try reflexivity.
  - now rewrite (H r eq_refl).
  - rewrite IH; [reflexivity |]. intros row Hrow. now apply H.
Qed.

Lemma choose_dict (self self' : MappingReviewDialog) (item index : nat) :
  choose self item index = Returned self' ->
  manual_mappings self' = manual_mappings self
  \/ exists row combo v,
       nth_error (mapping_tree self) item = Some row
       /\ widget row = Some combo
       /\ manual_mappings self' = Dict.set (manual_mappings self) (text0 row) v.
Proof.
  unfold choose.
  destruct (nth_error (mapping_tree self) item) as [row |] eqn:Hrow;
    [| intros [= <-]; now left].
  destruct (widget row) as [combo |] eqn:Hw; [| intros [= <-]; now left].
  destruct (_ && _); [| intros [= <-]; now left].
  unfold on_mapping_selected. simpl.
  destruct (Nat.ltb 0 index); [| intros [= <-]; now left].
  rewrite (nth_error_update_item _ _ _ row Hrow). intros [= <-]. simpl.
  right. exists row, combo. eexists. repeat split; eassumption.
Qed.

Lemma choose_tree (A : Type) (g : QTreeWidgetItem -> A)
    (self self' : MappingReviewDialog) (item index : nat) :
  (forall row combo idx txt,
     widget row = Some combo ->
     g (mkQTreeWidgetItem (text0 row) txt
          (Some (mkQComboBox (combo_items combo) idx))) = g row) ->
  (forall row txt,
     g (mkQTreeWidgetItem (text0 row) txt (widget row)) = g row) ->
  choose self item index = Returned self' ->
  map g (mapping_tree self') = map g (mapping_tree self).
Proof.
  intros Hg Hg'. unfold choose.
  destruct (nth_error (mapping_tree self) item) as [row |] eqn:Hrow;
    [| now intros [= <-]].
  destruct (widget row) as [combo |] eqn:Hw; [| now intros [= <-]].
  destruct (_ && _); [| now intros [= <-]].
  assert (Hfirst :
    map g (update_item (mapping_tree self) item
             (fun it => mkQTreeWidgetItem (text0 it) (text1 it)
                          (Some (mkQComboBox (combo_items combo) index))))
    = map g (mapping_tree self)).
  { apply map_update_item_at. intros row0 H0. rewrite Hrow in H0.
    injection H0 as <-. now apply Hg. }
  unfold on_mapping_selected. simpl.
  destruct (Nat.ltb 0 index); [| intros [= <-]; exact Hfirst].
  rewrite (nth_error_update_item _ _ _ row Hrow). intros [= <-]. simpl.
  rewrite <- Hfirst. apply map_update_item_at. intros row0 _. apply Hg'.
Qed.

(** X9: an exact match cannot be undone in the dialog: whatever the user
    chooses, a target column that is also a source column stays mapped to
    the source column of its own name. *)
Theorem exact_matches_are_kept (scorer : string -> string -> nat)
    (source_columns target_columns : list string)
    (self : MappingReviewDialog) (t : string) :
  reachable scorer source_columns target_columns self ->
  In t target_columns -> In t source_columns ->
  Dict.get (get_manual_mappings self) t = Some t.
Proof.
  intros Hreach Ht Hs. unfold get_manual_mappings.
  induction Hreach as [self Hinit | self item index self' Hreach IH Hrun].
  - rewrite init_loaded in Hinit. injection Hinit as <-. simpl.
    rewrite exact_entries_get.
    now rewrite (proj2 (mem_In _ _) Hs), (proj2 (mem_In _ _) Ht).
  - destruct (choose_dict _ _ _ _ Hrun) as [-> | [row [combo [v [Hrow [Hw ->]]]]]];
      [exact IH |].
    rewrite get_set_other; [exact IH |].
    pose proof (reachable_consistent _ _ _ _ Hreach) as [Htree _].
    rewrite Forall_forall in Htree.
    destruct (Htree row (nth_error_In _ _ Hrow) combo Hw) as [Hfresh _].
    intros E. apply Hfresh. now rewrite E.
Qed.

Lemma exact_matches_are_kept_witness :
  Dict.get
    (get_manual_mappings
       (mkMappingReviewDialog
          [ mkQTreeWidgetItem "Name" "Name" None;
            mkQTreeWidgetItem "E-mail" "Email"
              (Some (mkQComboBox ["Select mapping..."; "Email"] 1)) ]
          [("Name", "Name"); ("E-mail", "Email")]))
    "Name"
  = Some "Name".
Proof.
  apply (exact_matches_are_kept Example.initial_score
           ["Name"; "Email"] ["Name"; "E-mail"]).
  - eapply reach_choose.
    + apply reach_init. reflexivity.
    + instantiate (1 := 1). instantiate (1 := 1). reflexivity.
  - simpl. tauto.
  - simpl. tauto.
Defined.

(** X10: the choices of a user leave the layout of the dialog alone: the
    rows stay those of the target header, in its order, and every row
    keeps the dropdown entries it was loaded with. *)
Theorem rows_and_options_are_kept (scorer : string -> string -> nat)
    (source_columns target_columns : list string)
    (loaded self : MappingReviewDialog) :
  init scorer source_columns target_columns = Returned loaded ->
  reachable scorer source_columns target_columns self ->
  map text0 (mapping_tree self) = target_columns
  /\ map (fun row => option_map combo_items (widget row)) (mapping_tree self)
     = map (fun row => option_map combo_items (widget row))
           (mapping_tree loaded).
Proof.
  intros Hloaded Hreach.
  induction Hreach as [self Hinit | self item index self' Hreach IH Hrun].
  - rewrite Hloaded in Hinit. injection Hinit as <-.
    split; [| reflexivity].
    rewrite init_loaded in Hloaded. injection Hloaded as <-. simpl.
    rewrite map_map. rewrite <- (map_id target_columns) at 2.
    apply map_ext. intros t. unfold row_for.
    now destruct (mem t source_columns).
  - destruct IH as [IH0 IH1]. split.
    + rewrite <- IH0. now apply (choose_tree _ text0 self self' item index).
    + rewrite <- IH1.
      apply (choose_tree _ (fun row => option_map combo_items (widget row))
               self self' item index); [| reflexivity | exact Hrun].
      intros row combo idx txt Hw. simpl. now rewrite Hw.
Qed.

Lemma rows_and_options_are_kept_witness :
  map text0
    [ mkQTreeWidgetItem "Name" "Name" None;
      mkQTreeWidgetItem "E-mail" "Email"
        (Some (mkQComboBox ["Select mapping..."; "Email"] 1)) ]
  = ["Name"; "E-mail"]
  /\ map (fun row => option_map combo_items (widget row))
       [ mkQTreeWidgetItem "Name" "Name" None;
         mkQTreeWidgetItem "E-mail" "Email"
           (Some (mkQComboBox ["Select mapping..."; "Email"] 1)) ]
     = map (fun row => option_map combo_items (widget row))
         [ mkQTreeWidgetItem "Name" "Name" None;
           mkQTreeWidgetItem "E-mail" "Not Mapped"
             (Some (mkQComboBox ["Select mapping..."; "Email"] 0)) ].
Proof.
  apply (rows_and_options_are_kept Example.initial_score
           ["Name"; "Email"] ["Name"; "E-mail"]
           (mkMappingReviewDialog
              [ mkQTreeWidgetItem "Name" "Name" None;
                mkQTreeWidgetItem "E-mail" "Not Mapped"
                  (Some (mkQComboBox ["Select mapping..."; "Email"] 0)) ]
              [("Name", "Name")])
           (mkMappingReviewDialog
              [ mkQTreeWidgetItem "Name" "Name" None;
                mkQTreeWidgetItem "E-mail" "Email"
                  (Some (mkQComboBox ["Select mapping..."; "Email"] 1)) ]
              [("Name", "Name"); ("E-mail", "Email")])).
  - reflexivity.
  - eapply reach_choose.
    + apply reach_init. reflexivity.
    + instantiate (1 := 1). instantiate (1 := 1). reflexivity.
Defined.

(** ** The entries of a dropdown *)

Lemma StronglySorted_firstn (R : string * nat -> string * nat -> Prop)
    (k : nat) (l : list (string * nat)) :
  StronglySorted R l -> StronglySorted R (firstn k l).
Proof.
  intros H. revert k. induction H as [| x l Hl IH Hx]; intros [| k]; simpl;
    try constructor.
  - apply IH.
  - rewrite Forall_forall in *. intros y Hy. apply Hx.
    now apply (In_firstn (fun _ _ => 0)) in Hy.
Qed.

Lemma StronglySorted_filter (R : string * nat -> string * nat -> Prop)
    (f : string * nat -> bool) (l : list (string * nat)) :
  StronglySorted R l -> StronglySorted R (filter f l).
Proof.
  intros H. induction H as [| x l Hl IH Hx]; simpl; [constructor |].
  destruct (f x); [| exact IH]. constructor; [exact IH |].
  rewrite Forall_forall in *. intros y Hy. apply Hx.
  apply filter_In in Hy. tauto.
Qed.

Lemma StronglySorted_split (R : string * nat -> string * nat -> Prop)
    (l1 l2 : list (string * nat)) (x y : string * nat) :
  StronglySorted R (l1 ++ l2) -> In x l1 -> In y l2 -> R x y.
Proof.
  induction l1 as [| a l1 IH]; simpl; [tauto |].
  intros H Hx Hy. apply StronglySorted_inv in H. destruct H as [Hs Ha].
  destruct Hx as [-> | Hx]; [| now apply IH].
  rewrite Forall_forall in Ha. apply Ha, in_or_app. now right.
Qed.

Lemma extract_scored (scorer : string -> string -> nat) (query : string)
    (choices : list string) (limit : nat) (x : string * nat) :
  In x (extract scorer query choices limit) ->
  In (fst x) choices /\ snd x = scorer query (fst x).
Proof.
  unfold extract, nlargest. rewrite extractWithoutOrder_scores.
  intros H. apply (In_firstn scorer), (In_sort_by_score scorer), in_map_iff in H.
  destruct H as [c [E H]]. subst x. simpl. split; [exact H | reflexivity].
Qed.

Lemma extract_descending (scorer : string -> string -> nat) (query : string)
    (choices : list string) (limit : nat) :
  descending (extract scorer query choices limit).
Proof.
  unfold extract, nlargest. apply StronglySorted_firstn.
  apply (sort_by_score_stable scorer).
Qed.

Lemma loaded_row (scorer : string -> string -> nat)
    (source_columns target_columns : list string)
    (self : MappingReviewDialog) (row : QTreeWidgetItem) (combo : QComboBox) :
  init scorer source_columns target_columns = Returned self ->
  In row (mapping_tree self) -> widget row = Some combo ->
  combo
  = mkQComboBox
      ("Select mapping..."
       :: map fst (filter (fun match_ => Nat.leb 60 (snd match_))
                          (extract scorer (text0 row) source_columns 5)))
      0.
Proof.
  rewrite init_loaded. intros [= <-]. simpl. intros Hin Hw.
  apply in_map_iff in Hin. destruct Hin as [t [<- _]].
  unfold row_for in *. destruct (mem t source_columns); simpl in *;
    [discriminate |].
  now injection Hw as <-.
Qed.

(** X11: every dropdown of the loaded dialog starts at the placeholder
    and offers after it at most 5 names, each a source column that scores
    at least 60 against the row's target column, best score first. *)
Theorem dropdown_entries (scorer : string -> string -> nat)
    (source_columns target_columns : list string)
    (self : MappingReviewDialog) (row : QTreeWidgetItem) (combo : QComboBox) :
  init scorer source_columns target_columns = Returned self ->
  In row (mapping_tree self) -> widget row = Some combo ->
  currentIndex combo = 0
  /\ hd EmptyString (combo_items combo) = "Select mapping..."
  /\ length (tl (combo_items combo)) <= 5
  /\ (forall s, In s (tl (combo_items combo)) ->
        In s source_columns /\ 60 <= scorer (text0 row) s)
  /\ StronglySorted
       (fun a b => scorer (text0 row) b <= scorer (text0 row) a)
       (tl (combo_items combo)).
Proof.
  intros Hinit Hin Hw.
  rewrite (loaded_row _ _ _ _ _ _ Hinit Hin Hw).
  cbn [combo_items currentIndex hd tl].
  set (top5 := extract scorer (text0 row) source_columns 5).
  split; [reflexivity |]. split; [reflexivity |]. split; [| split].
  - rewrite length_map.
    transitivity (length top5).
    + apply filter_length_le.
    + unfold top5, extract, nlargest. apply firstn_le_length.
  - intros s Hs. apply in_map_iff in Hs. destruct Hs as [x [<- Hx]].
    apply filter_In in Hx. destruct Hx as [Hx H60].
    apply extract_scored in Hx. destruct Hx as [Hc Hscore].
    split; [exact Hc |]. rewrite <- Hscore. now apply Nat.leb_le.
  - assert (Hsorted : descending
                        (filter (fun m => Nat.leb 60 (snd m)) top5))
      by apply StronglySorted_filter, extract_descending.
    assert (Hscores : Forall (fun x => snd x = scorer (text0 row) (fst x))
                        (filter (fun m => Nat.leb 60 (snd m)) top5)).
    { apply Forall_forall. intros x Hx. apply filter_In in Hx.
      destruct Hx as [Hx _]. now apply extract_scored in Hx. }
    revert Hsorted Hscores. unfold descending.
    generalize (filter (fun m => Nat.leb 60 (snd m)) top5).
    intros l Hsorted. induction Hsorted as [| x l Hl IH Hx]; intros Hscores;
      simpl; constructor.
    + apply IH. now inversion Hscores.
    + inversion Hscores as [| ? ? Ex Hrest]; subst.
      apply Forall_map. rewrite Forall_forall in *.
      intros y Hy. rewrite <- Ex, <- (Hrest y Hy). now apply Hx.
Qed.

Lemma dropdown_entries_witness :
  currentIndex (mkQComboBox ["Select mapping..."; "Email"] 0) = 0
  /\ hd EmptyString (combo_items (mkQComboBox ["Select mapping..."; "Email"] 0))
     = "Select mapping..."
  /\ length (tl (combo_items (mkQComboBox ["Select mapping..."; "Email"] 0)))
     <= 5
  /\ (forall s,
        In s (tl (combo_items (mkQComboBox ["Select mapping..."; "Email"] 0))) ->
        In s ["Name"; "Email"]
        /\ 60 <= Example.initial_score
                   (text0 (mkQTreeWidgetItem "E-mail" "Not Mapped"
                             (Some (mkQComboBox ["Select mapping..."; "Email"] 0))))
                   s)
  /\ StronglySorted
       (fun a b =>
          Example.initial_score
            (text0 (mkQTreeWidgetItem "E-mail" "Not Mapped"
                      (Some (mkQComboBox ["Select mapping..."; "Email"] 0)))) b
          <= Example.initial_score
               (text0 (mkQTreeWidgetItem "E-mail" "Not Mapped"
                         (Some (mkQComboBox ["Select mapping..."; "Email"] 0)))) a)
       (tl (combo_items (mkQComboBox ["Select mapping..."; "Email"] 0))).
Proof.
  apply (dropdown_entries Example.initial_score
           ["Name"; "Email"] ["Name"; "E-mail"]
           (mkMappingReviewDialog
              [ mkQTreeWidgetItem "Name" "Name" None;
                mkQTreeWidgetItem "E-mail" "Not Mapped"
                  (Some (mkQComboBox ["Select mapping..."; "Email"] 0)) ]
              [("Name", "Name")])).
  - reflexivity.
  - simpl. tauto.
  - reflexivity.
Defined.

(** X12: a source column that scores at least 60 against a target column
    is left out of that column's dropdown only when the dropdown is full:
    it then offers 5 names, none scoring less than the one left out. *)
Theorem omitted_candidate_is_outscored (scorer : string -> string -> nat)
    (source_columns target_columns : list string)
    (self : MappingReviewDialog) (row : QTreeWidgetItem) (combo : QComboBox)
    (c : string) :
  init scorer source_columns target_columns = Returned self ->
  In row (mapping_tree self) -> widget row = Some combo ->
  In c source_columns -> 60 <= scorer (text0 row) c ->
  ~ In c (tl (combo_items combo)) ->
  length (tl (combo_items combo)) = 5
  /\ forall s, In s (tl (combo_items combo)) ->
       scorer (text0 row) c <= scorer (text0 row) s.
Proof.
  intros Hinit Hin Hw Hc H60 Hout.
  rewrite (loaded_row _ _ _ _ _ _ Hinit Hin Hw) in *.
  cbn [combo_items currentIndex hd tl] in *.
  set (t := text0 row) in *.
  set (ranked := sort_by_score (extractWithoutOrder scorer t source_columns)).
  assert (Htop : extract scorer t source_columns 5 = firstn 5 ranked)
    by reflexivity.
  assert (Hranked : In (c, scorer t c) ranked).
  { unfold ranked. rewrite extractWithoutOrder_scores.
    apply (In_sort_by_score scorer), in_map_iff. now exists c. }
  assert (Hsorted : descending (firstn 5 ranked ++ skipn 5 ranked)).
  { rewrite firstn_skipn. unfold ranked. apply (sort_by_score_stable scorer). }
  rewrite <- (firstn_skipn 5 ranked) in Hranked.
  apply in_app_or in Hranked. destruct Hranked as [Hfirst | Hrest].
  { exfalso. apply Hout. apply in_map_iff. exists (c, scorer t c).
    split; [reflexivity |]. apply filter_In. rewrite Htop.
    split; [exact Hfirst | now apply Nat.leb_le]. }
  assert (Hall : forall x, In x (firstn 5 ranked) -> scorer t c <= snd x).
  { intros x Hx.
    exact (StronglySorted_split _ _ _ x (c, scorer t c) Hsorted Hx Hrest). }
  assert (Hkept : filter (fun m => Nat.leb 60 (snd m)) (firstn 5 ranked)
                  = firstn 5 ranked).
  { apply forallb_filter_id. apply forallb_forall. intros x Hx.
    apply Nat.leb_le. specialize (Hall x Hx). lia. }
  rewrite Htop, Hkept. split.
  - rewrite length_map, length_firstn.
    assert (Hlen : 5 < length ranked).
    { destruct (Nat.lt_ge_cases 5 (length ranked)) as [L | L]; [exact L |].
      rewrite skipn_all2 in Hrest by lia. destruct Hrest. }
    lia.
  - intros s Hs. apply in_map_iff in Hs. destruct Hs as [x [<- Hx]].
    assert (Hscore : snd x = scorer t (fst x)).
    { rewrite <- Htop in Hx. now apply extract_scored in Hx. }
    rewrite <- Hscore. now apply Hall.
Qed.

Lemma omitted_candidate_is_outscored_witness :
  length (tl (combo_items
                (mkQComboBox
                   ["Select mapping..."; "E1"; "E2"; "E3"; "E4"; "E5"] 0)))
  = 5
  /\ forall s,
       In s (tl (combo_items
                   (mkQComboBox
                      ["Select mapping..."; "E1"; "E2"; "E3"; "E4"; "E5"] 0))) ->
       Example.initial_score
         (text0 (mkQTreeWidgetItem "Ex" "Not Mapped"
                   (Some (mkQComboBox
                            ["Select mapping..."; "E1"; "E2"; "E3"; "E4"; "E5"]
                            0))))
         "E6"
       <= Example.initial_score
            (text0 (mkQTreeWidgetItem "Ex" "Not Mapped"
                      (Some (mkQComboBox
                               ["Select mapping..."; "E1"; "E2"; "E3"; "E4"; "E5"]
                               0))))
            s.
Proof.
  apply (omitted_candidate_is_outscored Example.initial_score
           ["E1"; "E2"; "E3"; "E4"; "E5"; "E6"] ["Ex"]
           (mkMappingReviewDialog
              [ mkQTreeWidgetItem "Ex" "Not Mapped"
                  (Some (mkQComboBox
                           ["Select mapping..."; "E1"; "E2"; "E3"; "E4"; "E5"]
                           0)) ]
              [])).
  - reflexivity.
  - simpl. tauto.
  - reflexivity.
  - simpl. tauto.
  - vm_compute. lia.
  - simpl. intros [H | [H | [H | [H | [H | []]]]]]; discriminate.
Defined.

(** ** The mapping of the loaded dialog *)

Lemma set_exact (ks : list string) (k : string) :
  Dict.set (map (fun t => (t, t)) ks) k k
  = map (fun t => (t, t)) (if mem k ks then ks else ks ++ [k]).
Proof.
  induction ks as [| a ks IH]; simpl; [reflexivity |].
  rewrite (String.eqb_sym k a).
  destruct (String.eqb a k) eqn:E; simpl.
  - apply String.eqb_eq in E. now subst.
  - rewrite IH. now destruct (mem k ks).
Qed.

Lemma filter_filter (f g : string -> bool) (l : list string) :
  filter f (filter g l) = filter (fun x => g x && f x) l.
Proof.
  induction l as [| a l IH]; simpl; [reflexivity |].
  destruct (g a); simpl; [destruct (f a) |]; now rewrite IH.
Qed.

Lemma exact_entries_items (source_columns target_columns ks : list string) :
  exact_entries source_columns (map (fun t => (t, t)) ks) target_columns
  = map (fun t => (t, t))
      (ks ++ filter (fun t => negb (mem t ks))
               (distinct (filter (fun t => mem t source_columns)
                                 target_columns))).
Proof.
  revert ks. induction target_columns as [| a ts IH]; intros ks.
  - simpl. now rewrite app_nil_r.
  - unfold exact_entries in *. simpl.
    destruct (mem a source_columns) eqn:Ha.
    + rewrite set_exact, IH. f_equal. simpl.
      set (D := distinct (filter (fun t => mem t source_columns) ts)).
      destruct (mem a ks) eqn:Hk; simpl.
      * f_equal. rewrite filter_filter. apply filter_ext_in.
        intros x _. destruct (String.eqb a x) eqn:E; [| reflexivity].
        apply String.eqb_eq in E. subst x. now rewrite Hk.
      * rewrite <- app_assoc. simpl. f_equal. f_equal.
        rewrite filter_filter. apply filter_ext. intros x.
        unfold mem. rewrite existsb_app. simpl.
        rewrite orb_false_r, (String.eqb_sym x a).
        now destruct (String.eqb a x), (existsb (String.eqb x) ks).
    + apply IH.
Qed.

(** X13: the mapping of the loaded dialog lists the target columns that
    are also source columns, each once, in the order of their first
    occurrence in the target header, each mapped to itself; this is the
    order in which [append_data] goes through them. *)
Theorem loaded_mapping_order (scorer : string -> string -> nat)
    (source_columns target_columns : list string) :
  exists self,
    init scorer source_columns target_columns = Returned self
    /\ Dict.items (get_manual_mappings self)
       = map (fun t => (t, t))
           (distinct (filter (fun t => mem t source_columns) target_columns)).
Proof.
  rewrite init_loaded. eexists. split; [reflexivity |].
  unfold get_manual_mappings, Dict.items. simpl.
  change (exact_entries source_columns Dict.empty target_columns)
    with (exact_entries source_columns (map (fun t : string => (t, t)) [])
            target_columns).
  rewrite (exact_entries_items source_columns target_columns []).
  cbn [app mem existsb negb]. f_equal.
  generalize (distinct (filter (fun t => mem t source_columns) target_columns)).
  intros l. induction l as [| x l IH]; simpl; now f_equal.
Qed.

(** ** From the dialog to the append *)

Lemma dialog_mapping_merges_aux (scorer : string -> string -> nat)
    (list_of_set : list string -> list string)
    (source_df target_df : DataFrame) (self : MappingReviewDialog) :
  set_order list_of_set ->
  well_formed source_df -> well_formed target_df ->
  NoDup (columns source_df) -> NoDup (columns target_df) ->
  reachable scorer (columns source_df) (columns target_df) self ->
  exists merged stats,
    append_data list_of_set source_df target_df (get_manual_mappings self)
    = Returned (merged, stats)
    /\ columns merged = columns target_df
    /\ len merged = len target_df + len source_df
    /\ appended_rows stats = len source_df.
Proof.
  intros Hord Hws Hwt Hns Hnt Hreach.
  pose proof (reachable_finalized _ _ _ _ Hreach) as Hfin.
  pose proof (append_data_aligned list_of_set source_df target_df
                (get_manual_mappings self) Hord Hws Hwt Hnt) as Hrun.
  cbv zeta in Hrun.
  rewrite (finalized_no_duplicates list_of_set source_df target_df
             (get_manual_mappings self) Hord Hns Hfin) in Hrun.
  eexists. eexists. split; [exact Hrun |]. unfold len. simpl.
  repeat split. now rewrite length_app, length_map.
Qed.

(** X14: a mapping taken from the dialog never makes the append fail.
    For well-formed sheets with unique headers, whatever the user chose in
    the dialog opened on their headers, [append_data] with the dialog's
    mapping returns, with one appended row per source row. *)
Theorem dialog_mapping_merges (scorer : string -> string -> nat)
    (list_of_set : list string -> list string)
    (source_df target_df : DataFrame) (self : MappingReviewDialog) :
  set_order list_of_set ->
  well_formed source_df -> well_formed target_df ->
  NoDup (columns source_df) -> NoDup (columns target_df) ->
  reachable scorer (columns source_df) (columns target_df) self ->
  exists merged stats,
    append_data list_of_set source_df target_df (get_manual_mappings self)
    = Returned (merged, stats)
    /\ columns merged = columns target_df
    /\ len merged = len target_df + len source_df
    /\ appended_rows stats = len source_df.
Proof.
  intros Hord Hws Hwt Hns Hnt Hreach.
  pose proof (reachable_finalized _ _ _ _ Hreach) as Hfin.
  pose proof (append_data_aligned list_of_set source_df target_df
                (get_manual_mappings self) Hord Hws Hwt Hnt) as Hrun.
  cbv zeta in Hrun.
  rewrite (finalized_no_duplicates list_of_set source_df target_df
             (get_manual_mappings self) Hord Hns Hfin) in Hrun.
  eexists. eexists. split; [exact Hrun |]. unfold len. simpl.
  repeat split. now rewrite length_app, length_map.
Qed.

Lemma dialog_mapping_merges_witness :
  exists merged stats,
    append_data Example.reversed
      (mkDataFrame ["Name"; "Email"] [[Str "Ann"; NaN]])
      (mkDataFrame ["Name"; "E-mail"] [[Str "Zoe"; Str "zoe@x.org"]])
      (get_manual_mappings
         (mkMappingReviewDialog
            [ mkQTreeWidgetItem "Name" "Name" None;
              mkQTreeWidgetItem "E-mail" "Email"
                (Some (mkQComboBox ["Select mapping..."; "Email"] 1)) ]
            [("Name", "Name"); ("E-mail", "Email")]))
    = Returned (merged, stats)
    /\ columns merged
       = columns (mkDataFrame ["Name"; "E-mail"] [[Str "Zoe"; Str "zoe@x.org"]])
    /\ len merged
       = len (mkDataFrame ["Name"; "E-mail"] [[Str "Zoe"; Str "zoe@x.org"]])
         + len (mkDataFrame ["Name"; "Email"] [[Str "Ann"; NaN]])
    /\ appended_rows stats
       = len (mkDataFrame ["Name"; "Email"] [[Str "Ann"; NaN]]).
Proof.
  apply (dialog_mapping_merges Example.initial_score Example.reversed
           (mkDataFrame ["Name"; "Email"] [[Str "Ann"; NaN]])
           (mkDataFrame ["Name"; "E-mail"] [[Str "Zoe"; Str "zoe@x.org"]])).
  - exact reversed_set_order.
  - repeat constructor.
  - repeat constructor.
  - apply has_duplicates_NoDup. reflexivity.
  - apply has_duplicates_NoDup. reflexivity.
  - eapply reach_choose.
    + apply reach_init. reflexivity.
    + instantiate (1 := 1). instantiate (1 := 1). reflexivity.
Defined.

(** ** The Append Data button *)

Lemma choose_all_reachable (scorer : string -> string -> nat)
    (source_columns target_columns : list string)
    (choices : list (nat * nat)) (self : MappingReviewDialog) :
  reachable scorer source_columns target_columns self ->
  exists self',
    choose_all self choices = Returned self'
    /\ reachable scorer source_columns target_columns self'.
Proof.
  revert self. induction choices as [| [item index] rest IH]; intros self H.
  - exists self. now split.
  - simpl. destruct (choose_returns self item index) as [self1 Hrun].
    rewrite Hrun. simpl. apply IH.
    exact (reach_choose _ _ _ _ _ _ _ H Hrun).
Qed.

Lemma not_empty_string (s : string) :
  s <> EmptyString -> String.eqb s EmptyString = false.
Proof. intros H. now apply String.eqb_neq. Qed.

(** X15: with both sheets readable, well formed and with unique headers,
    the header-only reads of the dialog giving the same headers as the
    full reads of the append, and a target file that can be written, a
    click that ends with Proceed always succeeds, whatever the user chose
    in the dialog: one frame is written, to the target file, with the
    target's header and [len(target) + len(source)] rows, and the success
    message reports the number of source rows as appended. *)
Theorem click_appends (scorer : string -> string -> nat)
    (list_of_set : list string -> list string) (files : Files)
    (source_file target_file : string) (choices : list (nat * nat))
    (source_head target_head source_df target_df : DataFrame) :
  set_order list_of_set ->
  source_file <> EmptyString -> target_file <> EmptyString ->
  read_excel files source_file (Some 0) = Returned source_head ->
  read_excel files target_file (Some 0) = Returned target_head ->
  read_excel files source_file None = Returned source_df ->
  read_excel files target_file None = Returned target_df ->
  columns source_head = columns source_df ->
  columns target_head = columns target_df ->
  well_formed source_df -> well_formed target_df ->
  NoDup (columns source_df) -> NoDup (columns target_df) ->
  (forall df, to_excel files target_file df = Returned tt) ->
  exists merged stats,
    click_append scorer list_of_set files source_file target_file choices true
    = Returned [Written target_file merged;
                Information "Operation Successful" stats]
    /\ columns merged = columns target_df
    /\ len merged = len target_df + len source_df
    /\ appended_rows stats = len source_df.
Proof.
  intros Hord Hs Ht Hhs Hht Hrs Hrt Hcs Hct Hws Hwt Hns Hnt Hwrite.
  unfold click_append, open_dialog, append_data_files.
  rewrite (not_empty_string _ Hs), (not_empty_string _ Ht), Hhs, Hht, Hrs, Hrt.
  cbn [orb bind]. rewrite Hcs, Hct, init_loaded. cbn [bind].
  destruct (choose_all_reachable scorer (columns source_df)
              (columns target_df) choices _
              (reach_init scorer _ _ _
                 (init_loaded scorer (columns source_df) (columns target_df))))
    as [self [Hchosen Hreach]].
  rewrite Hchosen. cbn [bind].
  destruct (dialog_mapping_merges_aux scorer list_of_set source_df target_df
              self Hord Hws Hwt Hns Hnt Hreach)
    as [merged [stats [Hrun Hshape]]].
  rewrite Hrun. cbn [bind fst]. rewrite Hwrite. cbn [bind].
  exists merged, stats. split; [reflexivity | exact Hshape].
Qed.

Lemma click_appends_witness :
  exists merged stats,
    click_append Example.initial_score Example.reversed Example.files
      "source.xlsx" "target.xlsx" [(0, 1)] true
    = Returned [Written "target.xlsx" merged;
                Information "Operation Successful" stats]
    /\ columns merged = columns Example.target_df
    /\ len merged = len Example.target_df + len Example.source_df
    /\ appended_rows stats = len Example.source_df.
Proof.
  apply (click_appends Example.initial_score Example.reversed Example.files
           "source.xlsx" "target.xlsx" [(0, 1)]
           (Example.first_rows (Some 0) Example.source_df)
           (Example.first_rows (Some 0) Example.target_df)
           Example.source_df Example.target_df).
  - exact reversed_set_order.
  - discriminate.
  - discriminate.
  - reflexivity.
  - reflexivity.
  - reflexivity.
  - reflexivity.
  - reflexivity.
  - reflexivity.
  - repeat constructor.
  - repeat constructor.
  - apply has_duplicates_NoDup. reflexivity.
  - apply has_duplicates_NoDup. reflexivity.
  - reflexivity.
Defined.

(** X17: a sheet that cannot be read is not reported through the error
    message: the dialog is built before the [try], so the exception of
    its [pd.read_excel] of a header leaves the handler and no message box
    is shown. *)
Theorem click_unreadable_file (scorer : string -> string -> nat)
    (list_of_set : list string -> list string) (files : Files)
    (source_file target_file : string) (choices : list (nat * nat))
    (proceed : bool) (e : string) :
  source_file <> EmptyString -> target_file <> EmptyString ->
  read_excel files source_file (Some 0) = Raised e
  \/ ((exists source_df,
         read_excel files source_file (Some 0) = Returned source_df)
      /\ read_excel files target_file (Some 0) = Raised e) ->
  click_append scorer list_of_set files source_file target_file choices proceed
  = Raised e.
Proof.
  intros Hs Ht H. unfold click_append, open_dialog.
  rewrite (not_empty_string _ Hs), (not_empty_string _ Ht). cbn [orb].
  destruct H as [-> | [[source_df ->] ->]]; reflexivity.
Qed.

Lemma click_unreadable_file_witness :
  click_append Example.initial_score Example.as_built Example.files
    "source.xlsx" "lost.xlsx" [] true
  = Raised "FileNotFoundError".
Proof.
  apply (click_unreadable_file Example.initial_score Example.as_built
           Example.files "source.xlsx" "lost.xlsx" [] true).
  - discriminate.
  - discriminate.
  - right. split; [| reflexivity].
    now exists (Example.first_rows (Some 0) Example.source_df).
Defined.

(** ** An empty source sheet *)

(** X18: a source sheet without rows adds nothing: a call that returns
    wrote the target frame back as it was and reports 0 appended rows. *)
Theorem empty_source_changes_nothing
    (list_of_set : list string -> list string)
    (source_df target_df merged : DataFrame) (m : Dict.t) (stats : Statistics) :
  set_order list_of_set ->
  well_formed target_df -> NoDup (columns target_df) ->
  rows source_df = [] ->
  append_data list_of_set source_df target_df m = Returned (merged, stats) ->
  merged = target_df /\ appended_rows stats = 0.
Proof.
  intros Hord Hwt Hnt Hempty Hrun.
  assert (Hws : well_formed source_df)
    by (unfold well_formed; rewrite Hempty; constructor).
  rewrite (append_data_aligned list_of_set source_df target_df m
             Hord Hws Hwt Hnt) in Hrun.
  cbv zeta in Hrun.
  destruct (has_duplicates _) in Hrun; [discriminate |].
  injection Hrun as <- <-. unfold len. rewrite Hempty. simpl.
  rewrite app_nil_r. split; [now destruct target_df | reflexivity].
Qed.

Lemma empty_source_changes_nothing_witness :
  Example.target_df = Example.target_df
  /\ appended_rows (mkStatistics 2 2 1 0) = 0.
Proof.
  apply (empty_source_changes_nothing Example.as_built
           (mkDataFrame ["Name"; "Phone"] []) Example.target_df
           Example.target_df [] (mkStatistics 2 2 1 0)).
  - exact as_built_set_order.
  - repeat constructor.
  - apply has_duplicates_NoDup. reflexivity.
  - reflexivity.
  - reflexivity.
Defined.

(** ** Row count *)

Lemma select_duplicates (list_of_set : list string -> list string)
    (mapped target_df : DataFrame) :
  set_order list_of_set ->
  has_duplicates
    (columns (select mapped (common_columns_of list_of_set mapped target_df)))
  = existsb (fun c => has_duplicates (filter (String.eqb c) (columns mapped)))
            (columns target_df).
Proof.
  intros Hord.
  set (common := common_columns_of list_of_set mapped target_df).
  destruct (has_duplicates (columns (select mapped common))) eqn:E;
    destruct (existsb _ (columns target_df)) eqn:E'; try reflexivity; exfalso.
  - simpl in E.
    destruct (duplicated_common_label (columns mapped) common
                (common_columns_NoDup list_of_set mapped target_df Hord) E)
      as [c [Hc Hdup]].
    apply (common_columns_In list_of_set mapped target_df c Hord) in Hc.
    assert (Hex : existsb
                    (fun c => has_duplicates
                                (filter (String.eqb c) (columns mapped)))
                    (columns target_df) = true)
      by (apply existsb_exists; exists c; tauto).
    congruence.
  - apply existsb_exists in E'. destruct E' as [c [Hc Hdup]].
    apply has_duplicates_NoDup in E. simpl in E.
    assert (Hin : In c common).
    { apply (common_columns_In list_of_set mapped target_df c Hord).
      split; [| exact Hc].
      destruct (filter (String.eqb c) (columns mapped)) as [| x xs] eqn:Ef;
        [discriminate |].
      assert (Hx : In x (filter (String.eqb c) (columns mapped)))
        by (rewrite Ef; now left).
      apply filter_In in Hx. destruct Hx as [Hx Ex].
      apply String.eqb_eq in Ex. now subst. }
    pose proof (NoDup_flat_map_part _ _ c E Hin) as Hno.
    apply has_duplicates_NoDup in Hno. congruence.
Qed.

(** C1, as far as it holds: for well-formed tables with a unique target
    header and any mapping, [append_data] returns exactly when no label of
    the target header stands over two columns of the renamed view.  It
    then returns a frame with [len(target) + len(source)] rows on the
    target's header: the target's rows unchanged and in order, then one
    row per source row in the source's order, whatever number of columns
    survived the intersection.  Otherwise it raises InvalidIndexError.  A
    mapping whose target columns each carry the name of their source
    column or are no source column, on a source with a unique header, is
    of the first kind. *)
Theorem merge_row_count (list_of_set : list string -> list string)
    (source_df target_df : DataFrame) (m : Dict.t) :
  set_order list_of_set ->
  well_formed source_df -> well_formed target_df ->
  NoDup (columns target_df) ->
  let view := columns (apply_mappings source_df m) in
  let clash :=
    existsb (fun c => has_duplicates (filter (String.eqb c) view))
            (columns target_df) in
  (clash = false ->
   exists merged stats,
     append_data list_of_set source_df target_df m = Returned (merged, stats)
     /\ len merged = len target_df + len source_df
     /\ columns merged = columns target_df
     /\ firstn (len target_df) (rows merged) = rows target_df
     /\ skipn (len target_df) (rows merged)
        = map (aligned_row view (columns target_df)) (rows source_df))
  /\ (clash = true ->
      append_data list_of_set source_df target_df m
      = Raised "InvalidIndexError")
  /\ (NoDup (columns source_df) -> finalized (columns source_df) m ->
      clash = false).
Proof.
  intros Hord Hws Hwt Hnt view clash.
  pose proof (append_data_aligned list_of_set source_df target_df m
                Hord Hws Hwt Hnt) as Hrun.
  cbv zeta in Hrun.
  rewrite (select_duplicates list_of_set (apply_mappings source_df m)
             target_df Hord) in Hrun.
  fold view in Hrun. fold clash in Hrun.
  split; [| split].
  - intros Hclash. rewrite Hclash in Hrun.
    eexists. eexists. split; [exact Hrun |]. unfold len. simpl.
    repeat split.
    + now rewrite length_app, length_map.
    + rewrite firstn_app, Nat.sub_diag, firstn_all. simpl. apply app_nil_r.
    + rewrite skipn_app, Nat.sub_diag, skipn_all. reflexivity.
  - intros Hclash. now rewrite Hclash in Hrun.
  - intros Hns Hfin. unfold clash, view.
    rewrite <- (select_duplicates list_of_set (apply_mappings source_df m)
                  target_df Hord).
    now apply finalized_no_duplicates.
Qed.

Lemma merge_row_count_witness :
  exists merged stats,
    append_data Example.reversed Example.source_df Example.ledger_df
                Example.mappings = Returned (merged, stats)
    /\ len merged = len Example.ledger_df + len Example.source_df
    /\ columns merged = columns Example.ledger_df
    /\ firstn (len Example.ledger_df) (rows merged) = rows Example.ledger_df
    /\ skipn (len Example.ledger_df) (rows merged)
       = map (aligned_row
                (columns (apply_mappings Example.source_df Example.mappings))
                (columns Example.ledger_df))
             (rows Example.source_df).
Proof.
  refine (proj1 (merge_row_count Example.reversed Example.source_df
                   Example.ledger_df Example.mappings _ _ _ _) _).
  - exact reversed_set_order.
  - repeat constructor.
  - repeat constructor.
  - apply has_duplicates_NoDup. reflexivity.
  - reflexivity.
Defined.

(** C1, as stated, fails: both sheets are well formed with unique
    headers, and the mapping gives each of the target's columns a column
    of the source, [Email] being given [Name] in place of its exact
    match; the renamed view then has two columns [Email] and the append
    raises. *)
Lemma exact_override_fails :
  well_formed Example.source_df /\ well_formed Example.target_df
  /\ NoDup (columns Example.source_df) /\ NoDup (columns Example.target_df)
  /\ NoDup (Dict.keys Example.override_mappings)
  /\ (forall t s, In (t, s) (Dict.items Example.override_mappings) ->
        In t (columns Example.target_df) /\ In s (columns Example.source_df))
  /\ columns (apply_mappings Example.source_df Example.override_mappings)
     = ["Email"; "Email"; "Phone"]
  /\ append_data Example.as_built Example.source_df Example.target_df
                 Example.override_mappings
     = Raised "InvalidIndexError".
Proof.
  split; [repeat constructor |]. split; [repeat constructor |].
  split; [apply has_duplicates_NoDup; reflexivity |].
  split; [apply has_duplicates_NoDup; reflexivity |].
  split; [apply has_duplicates_NoDup; reflexivity |].
  split; [| split; reflexivity].
  intros t s [H | [H | []]]; injection H as <- <-; simpl; tauto.
Qed.

(** ** Entries that are never cleared *)

Lemma get_set_keeps (d : Dict.t) (k v t s : string) :
  Dict.get d t = Some s -> exists s', Dict.get (Dict.set d k v) t = Some s'.
Proof.
  intros H. destruct (string_dec k t) as [-> | Hne].
  - exists v. apply get_set_same.
  - exists s. now rewrite get_set_other.
Qed.

Lemma choose_all_keeps (choices : list (nat * nat))
    (self self' : MappingReviewDialog) (t s : string) :
  Dict.get (manual_mappings self) t = Some s ->
  choose_all self choices = Returned self' ->
  exists s', Dict.get (manual_mappings self') t = Some s'.
Proof.
  revert self s. induction choices as [| [item index] rest IH];
    intros self s Hget; simpl.
  - intros [= <-]. now exists s.
  - destruct (choose self item index) as [self1 | e] eqn:Hrun;
      [| discriminate].
    simpl. intros Hrest.
    destruct (choose_dict _ _ _ _ Hrun) as [E | [row [combo [v [_ [_ E]]]]]].
    + apply (IH self1 s); [now rewrite E | exact Hrest].
    + destruct (get_set_keeps (manual_mappings self) (text0 row) v t s Hget)
        as [s1 Hs1].
      apply (IH self1 s1); [now rewrite E | exact Hrest].
Qed.

(** C8, as far as it holds: the handler acts only on a real choice.  When
    the dropdown shows the placeholder (index 0) the dialog is returned as
    it is; a user who goes back to the placeholder of any row changes
    neither the mapping dict nor the texts of the rows.  No call of the
    handler and no sequence of choices removes an entry from the mapping
    dict: a target column that has a chosen source column keeps one, and
    its row never reads as Unmapped again. *)
Theorem placeholder_changes_nothing (self : MappingReviewDialog) (item : nat)
    (combo : QComboBox) :
  currentIndex combo = 0 ->
  on_mapping_selected self item combo = Returned self
  /\ (exists self',
        choose self item 0 = Returned self'
        /\ get_manual_mappings self' = get_manual_mappings self
        /\ map text0 (mapping_tree self') = map text0 (mapping_tree self)
        /\ map text1 (mapping_tree self') = map text1 (mapping_tree self))
  /\ (forall t s item' combo' self',
        Dict.get (get_manual_mappings self) t = Some s ->
        on_mapping_selected self item' combo' = Returned self' ->
        exists s', Dict.get (get_manual_mappings self') t = Some s')
  /\ (forall t s choices self',
        Dict.get (get_manual_mappings self) t = Some s ->
        choose_all self choices = Returned self' ->
        (exists s', Dict.get (get_manual_mappings self') t = Some s')
        /\ forall row, text0 row = t ->
             status (entry_of self' row) <> Unmapped
             /\ chosen_source_column (entry_of self' row) <> None).
Proof.
  intros H. split; [| split; [| split]].
  - unfold on_mapping_selected. now rewrite H.
  - unfold choose.
    destruct (nth_error (mapping_tree self) item) as [row |];
      [| now exists self].
    destruct (widget row) as [shown |]; [| now exists self].
    destruct (_ && _); [| now exists self].
    unfold on_mapping_selected. simpl. eexists. split; [reflexivity |].
    simpl. repeat split; now apply map_update_item.
  - unfold get_manual_mappings, on_mapping_selected.
    intros t s item' combo' self' Hget.
    destruct (Nat.ltb 0 (currentIndex combo'));
      [| intros [= <-]; now exists s].
    destruct (nth_error (mapping_tree self) item') as [row |];
      [| discriminate].
    intros [= <-]. simpl. now apply (get_set_keeps _ _ _ t s).
  - unfold get_manual_mappings. intros t s choices self' Hget Hrun.
    destruct (choose_all_keeps choices self self' t s Hget Hrun) as [s' Hs'].
    split; [now exists s' |].
    intros row <-. unfold entry_of. rewrite Hs'.
    destruct (widget row); simpl; split; discriminate.
Qed.

Lemma placeholder_changes_nothing_witness :
  on_mapping_selected Example.mapped_dialog 1
    (mkQComboBox ["Select mapping..."; "Email"] 0)
  = Returned Example.mapped_dialog
  /\ (exists self',
        choose Example.mapped_dialog 1 0 = Returned self'
        /\ get_manual_mappings self'
           = get_manual_mappings Example.mapped_dialog
        /\ map text0 (mapping_tree self')
           = map text0 (mapping_tree Example.mapped_dialog)
        /\ map text1 (mapping_tree self')
           = map text1 (mapping_tree Example.mapped_dialog))
  /\ (forall t s item' combo' self',
        Dict.get (get_manual_mappings Example.mapped_dialog) t = Some s ->
        on_mapping_selected Example.mapped_dialog item' combo'
        = Returned self' ->
        exists s', Dict.get (get_manual_mappings self') t = Some s')
  /\ (forall t s choices self',
        Dict.get (get_manual_mappings Example.mapped_dialog) t = Some s ->
        choose_all Example.mapped_dialog choices = Returned self' ->
        (exists s', Dict.get (get_manual_mappings self') t = Some s')
        /\ forall row, text0 row = t ->
             status (entry_of self' row) <> Unmapped
             /\ chosen_source_column (entry_of self' row) <> None).
Proof.
  apply (placeholder_changes_nothing Example.mapped_dialog 1
           (mkQComboBox ["Select mapping..."; "Email"] 0)).
  reflexivity.
Defined.
